(** * skychart: the chain-registry mirror and its query handlers

    A shallow embedding of the Go package [server] (the [Handler] with its
    synchronisation pass [Pull] and its read-only query handlers) and of the
    package [types] it stores, followed by the properties of the
    synchronisation-and-indexing engine.

    Conventions of the embedding.
    - Go strings are byte strings: [string] (a list of [ascii] bytes).
    - Go maps are [gmap]s; a lookup [m !! k] is Go's two-valued [v, ok := m[k]].
    - A method with a pointer receiver that mutates the handler is a
      computation in the monad [M]: it threads the handler and the list of
      URLs requested so far, and ends in a value, a returned [error], or a
      run-time panic.
    - The remote source, the clock and the JSON decoder of the Go standard
      library are the fields of an environment record [Env]. *)

From Stdlib Require Import ZArith String Ascii List Lia.
From stdpp Require Import gmap strings list fin_maps.

Local Open Scope Z_scope.

(** ** Package [strings] of the Go standard library *)

Module GoStrings.

(** [strings.Compare]: byte-wise lexicographic comparison; -1, 0 or +1. *)
Definition Compare (a b : string) : Z :=
  match String.compare a b with
  | Lt => -1
  | Eq => 0
  | Gt => 1
  end.

(** [strings.Contains s substr]: [substr] occurs somewhere in [s]. *)
Fixpoint Contains (s substr : string) : bool :=
  String.prefix substr s ||
  match s with
  | EmptyString => false
  | String _ s' => Contains s' substr
  end.

(** [strings.Split s sep] for a non-empty separator (as at each call site
    of the package): the pieces of [s] between the successive
    non-overlapping occurrences of [sep], found from the left.  [skip] is
    the number of bytes of a separator just matched that are still to be
    passed over. *)
Fixpoint SplitFrom (sep : string) (skip : nat) (s : string) : list string :=
  match s with
  | EmptyString => [EmptyString]
  | String c s' =>
      match skip with
      | S k => SplitFrom sep k s'
      | O =>
          if String.prefix sep s
          then EmptyString :: SplitFrom sep (String.length sep - 1) s'
          else match SplitFrom sep 0 s' with
               | piece :: rest => String c piece :: rest
               | [] => [String c EmptyString]
               end
      end
  end.

Definition Split (s sep : string) : list string := SplitFrom sep 0 s.

End GoStrings.

(** [strconv.FormatBool]. *)
Definition FormatBool (b : bool) : string := if b then "true" else "false".

(** [fmt.Sprintf] with the format ["%s-%s"]. *)
Definition sprintf_dash (a b : string) : string := a +:+ "-" +:+ b.

(** ** Package [types] *)

Module types.

Record PathChain := {
  ChainName : string;
  ClientID : string;
  ConnectionID : string
}.

Record ChannelEnd := {
  ChannelID : string;
  PortID : string
}.

Record ChannelTags := {
  Status : string;
  Preferred : bool;
  Dex : string;
  Properties : string
}.

Record Channel := {
  ChannelChain1 : ChannelEnd;
  ChannelChain2 : ChannelEnd;
  Ordering : string;
  Version : string;
  Tags : ChannelTags
}.

Record Path := {
  Chain1 : PathChain;
  Chain2 : PathChain;
  Channels : list Channel
}.

(** Modelled from the spec: the declaration of [types.Chain] is not among
    the sources.  The fields are those the handlers read ([ChainID],
    [Apis.RPC], [Apis.Grpc], [Apis.REST], [Peers.Seeds],
    [Peers.PersistentPeers]) and the human name of the data model. *)
Record ChainApis := {
  RPC : list string;
  Grpc : list string;
  REST : list string
}.

Record ChainPeers := {
  Seeds : list string;
  PersistentPeers : list string
}.

Record Chain := {
  ChainID : string;
  Name : string;
  Apis : ChainApis;
  Peers : ChainPeers
}.

(** Modelled from the spec: the declarations of [types.AssetList] and of
    its asset records are not among the sources.  The fields are those
    [Pull] and the handlers read ([ChainID], [Assets], [Display]). *)
Record Asset := {
  Display : string
}.

Record AssetList := {
  AssetsChainID : string;
  Assets : list Asset
}.

(** The zero values [types.Path{}], [types.Chain{}], [types.AssetList{}]. *)
Definition zeroPathChain : PathChain :=
  {| ChainName := ""; ClientID := ""; ConnectionID := "" |}.
Definition zeroPath : Path :=
  {| Chain1 := zeroPathChain; Chain2 := zeroPathChain; Channels := [] |}.
Definition zeroChain : Chain :=
  {| ChainID := ""; Name := "";
     Apis := {| RPC := []; Grpc := []; REST := [] |};
     Peers := {| Seeds := []; PersistentPeers := [] |} |}.
Definition zeroAssetList : AssetList :=
  {| AssetsChainID := ""; Assets := [] |}.

End types.

Import types.

(** ** Outcomes of Go code *)

(** The [error] values the package returns. *)
Inductive error :=
| ErrGet (query : string)               (* the error of [http.Get] *)
| ErrStatus (query : string) (code : Z) (* "unexpected status code ..." *)
| ErrRead                               (* the error of [ioutil.ReadAll] *)
| ErrUnmarshal                          (* the error of [json.Unmarshal] *)
| ErrUnmarshalRepo.                     (* "unmarshalling repo: ..." *)

(** The run-time panics the package can raise. *)
Inductive panic :=
| PanicTypeAssertion                    (* [x.(string)] on a non-string *)
| PanicIndex (i len : nat)              (* index out of range [i] with length [len] *)
| PanicNilMap                           (* assignment to entry in nil map *)
| PanicTagKey (tag : string).           (* the explicit [panic] of getPathsWithTag *)

Inductive result (A : Type) :=
| Ok (a : A)
| Err (e : error)
| Panic (p : panic).
Arguments Ok {A} a.
Arguments Err {A} e.
Arguments Panic {A} p.

Definition result_bind {A B} (f : A → result B) (r : result A) : result B :=
  match r with
  | Ok a => f a
  | Err e => Err e
  | Panic p => Panic p
  end.

#[global] Instance result_ret : MRet result := λ A a, Ok a.
#[global] Instance result_mbind : MBind result := λ A B f r, result_bind f r.

(** [l[i]] on a slice. *)
Definition index {A} (l : list A) (i : nat) : result A :=
  match l !! i with
  | Some x => Ok x
  | None => Panic (PanicIndex i (length l))
  end.

(** ** The environment of a pass *)

(** A value decoded into [interface{}] by [encoding/json]. *)
#[local] Set Warnings "-register-all".
Inductive json :=
| JNull
| JBool (b : bool)
| JNumber (digits : string)
| JString (s : string)
| JArray (l : list json)
| JObject (fields : list (string * json)).

(** The outcome of [http.Get] followed by [ioutil.ReadAll] on the body: the
    request fails, or it yields a status code and the bytes read, with a
    flag telling whether reading them ended without error. *)
Inductive httpResult :=
| GetError
| Response (StatusCode : Z) (body : string) (readOk : bool).

Definition StatusOK : Z := 200.
Definition StatusBadRequest : Z := 400.
Definition StatusNotFound : Z := 404.

(** What a pass takes from outside the package: the remote source (a
    function of the URL, fixed for the duration of one pass), the value of
    the one [time.Now()] a pass evaluates, [time.Format] with the RFC3339
    layout, and [json.Unmarshal] at the five target types it is used at. *)
Record Env := {
  httpGet : string → httpResult;
  timeNow : Z;
  formatRFC3339 : Z → string;
  unmarshalList : string → option (list json);
  unmarshalRepo : string → option (list (gmap string json));
  unmarshalChain : string → option Chain;
  unmarshalAssetList : string → option AssetList;
  unmarshalPath : string → option Path
}.

(** ** Package [server]: the handler *)

Definition DEX : string := "dex".
Definition PREFERRED : string := "preferred".
Definition PROPERTIES : string := "properties".
Definition STATUS : string := "status".

(** The logger is write-only and is not modelled. *)
Record Handler := {
  registryUrl : string;
  lastUpdated : Z;
  chains : list string;
  assets : list string;
  paths : list string;
  chainByAsset : gmap string string;
  chainById : gmap string string;
  pathsByTag : gmap string (gmap string (list Path));
  chainList : gmap string Chain;
  assetList : gmap string AssetList;
  pathList : gmap string Path
}.

Definition set_lastUpdated (t : Z) (h : Handler) : Handler :=
  {| registryUrl := registryUrl h; lastUpdated := t; chains := chains h;
     assets := assets h; paths := paths h; chainByAsset := chainByAsset h;
     chainById := chainById h; pathsByTag := pathsByTag h;
     chainList := chainList h; assetList := assetList h;
     pathList := pathList h |}.

Definition set_chains (l : list string) (h : Handler) : Handler :=
  {| registryUrl := registryUrl h; lastUpdated := lastUpdated h; chains := l;
     assets := assets h; paths := paths h; chainByAsset := chainByAsset h;
     chainById := chainById h; pathsByTag := pathsByTag h;
     chainList := chainList h; assetList := assetList h;
     pathList := pathList h |}.

Definition set_paths (l : list string) (h : Handler) : Handler :=
  {| registryUrl := registryUrl h; lastUpdated := lastUpdated h;
     chains := chains h; assets := assets h; paths := l;
     chainByAsset := chainByAsset h; chainById := chainById h;
     pathsByTag := pathsByTag h; chainList := chainList h;
     assetList := assetList h; pathList := pathList h |}.

Definition set_chainByAsset (m : gmap string string) (h : Handler) : Handler :=
  {| registryUrl := registryUrl h; lastUpdated := lastUpdated h;
     chains := chains h; assets := assets h; paths := paths h;
     chainByAsset := m; chainById := chainById h;
     pathsByTag := pathsByTag h; chainList := chainList h;
     assetList := assetList h; pathList := pathList h |}.

Definition set_chainById (m : gmap string string) (h : Handler) : Handler :=
  {| registryUrl := registryUrl h; lastUpdated := lastUpdated h;
     chains := chains h; assets := assets h; paths := paths h;
     chainByAsset := chainByAsset h; chainById := m;
     pathsByTag := pathsByTag h; chainList := chainList h;
     assetList := assetList h; pathList := pathList h |}.

Definition set_pathsByTag (m : gmap string (gmap string (list Path)))
    (h : Handler) : Handler :=
  {| registryUrl := registryUrl h; lastUpdated := lastUpdated h;
     chains := chains h; assets := assets h; paths := paths h;
     chainByAsset := chainByAsset h; chainById := chainById h;
     pathsByTag := m; chainList := chainList h;
     assetList := assetList h; pathList := pathList h |}.

Definition set_chainList (m : gmap string Chain) (h : Handler) : Handler :=
  {| registryUrl := registryUrl h; lastUpdated := lastUpdated h;
     chains := chains h; assets := assets h; paths := paths h;
     chainByAsset := chainByAsset h; chainById := chainById h;
     pathsByTag := pathsByTag h; chainList := m;
     assetList := assetList h; pathList := pathList h |}.

Definition set_assetList (m : gmap string AssetList) (h : Handler) : Handler :=
  {| registryUrl := registryUrl h; lastUpdated := lastUpdated h;
     chains := chains h; assets := assets h; paths := paths h;
     chainByAsset := chainByAsset h; chainById := chainById h;
     pathsByTag := pathsByTag h; chainList := chainList h;
     assetList := m; pathList := pathList h |}.

Definition set_pathList (m : gmap string Path) (h : Handler) : Handler :=
  {| registryUrl := registryUrl h; lastUpdated := lastUpdated h;
     chains := chains h; assets := assets h; paths := paths h;
     chainByAsset := chainByAsset h; chainById := chainById h;
     pathsByTag := pathsByTag h; chainList := chainList h;
     assetList := assetList h; pathList := m |}.

Definition NewHandler (url : string) : Handler :=
  {| registryUrl := url;
     lastUpdated := 0;
     chains := [];
     assets := [];
     paths := [];
     chainByAsset := ∅;
     chainById := ∅;
     pathsByTag :=
       <[STATUS := ∅]> (<[PROPERTIES := ∅]> (<[PREFERRED := ∅]> (<[DEX := ∅]> ∅)));
     chainList := ∅;
     assetList := ∅;
     pathList := ∅ |}.

(** ** The monad of the mutating methods *)

(** A computation threads the handler and the list of URLs requested so far
    (oldest first).  After a returned error or a panic the handler is the one
    reached at that point: the methods mutate it in place. *)
Definition M (A : Type) : Type :=
  Handler → list string → result A * Handler * list string.

Definition M_ret {A} (a : A) : M A := λ h tr, (Ok a, h, tr).

Definition M_bind {A B} (f : A → M B) (m : M A) : M B := λ h tr,
  match m h tr with
  | (Ok a, h', tr') => f a h' tr'
  | (Err e, h', tr') => (Err e, h', tr')
  | (Panic p, h', tr') => (Panic p, h', tr')
  end.

#[global] Instance M_mret : MRet M := @M_ret.
#[global] Instance M_mbind : MBind M := @M_bind.

Definition getH : M Handler := λ h tr, (Ok h, h, tr).
Definition modify (f : Handler → Handler) : M unit := λ h tr, (Ok tt, f h, tr).
Definition throw {A} (e : error) : M A := λ h tr, (Err e, h, tr).
Definition raise {A} (p : panic) : M A := λ h tr, (Panic p, h, tr).
Definition lift {A} (r : result A) : M A := λ h tr, (r, h, tr).

(** [for _, x := range l { body }], leaving at the first error or panic. *)
Fixpoint forM_ {A} (l : list A) (body : A → M unit) : M unit :=
  match l with
  | [] => mret tt
  | x :: l' => body x ;; forM_ l' body
  end.

(** ** Package [server]: the synchronisation pass *)

(** [v.(string)] on the value of [entry[key]]: a missing key yields the nil
    interface, on which the assertion fails like on any non-string. *)
Definition assertString (v : option json) : result string :=
  match v with
  | Some (JString s) => Ok s
  | _ => Panic PanicTypeAssertion
  end.

(** The loop of [getChains] over the decoded listing; [chains] is the slice
    built so far. *)
Fixpoint scanChainEntries (repo : list (gmap string json)) (chains : list string)
    : result (list string) :=
  match repo with
  | [] => Ok chains
  | entry :: repo' =>
      entryType ← assertString (entry !! "type");
      if decide (entryType ≠ "dir") then scanChainEntries repo' chains else
      name ← assertString (entry !! "name");
      if GoStrings.Contains name "testnets" then scanChainEntries repo' chains else
      if GoStrings.Contains name "." then scanChainEntries repo' chains else
      scanChainEntries repo' (chains ++ [name])
  end.

(** The loop of [getPaths] over the decoded listing. *)
Fixpoint scanPathEntries (repo : list (gmap string json)) (paths : list string)
    : result (list string) :=
  match repo with
  | [] => Ok paths
  | entry :: repo' =>
      entryType ← assertString (entry !! "type");
      if decide (entryType ≠ "file") then scanPathEntries repo' paths else
      name ← assertString (entry !! "name");
      if negb (GoStrings.Contains name ".json") then scanPathEntries repo' paths else
      if negb (GoStrings.Contains name "-") then scanPathEntries repo' paths else
      name ← index (GoStrings.Split name ".") 0;
      scanPathEntries repo' (paths ++ [name])
  end.

(** [h.pathsByTag[tag][value] = append(h.pathsByTag[tag][value], path)]:
    reading a missing bucket yields the nil slice; writing into the inner
    map of a missing tag is an assignment to an entry of a nil map. *)
Definition appendTag (tag value : string) (path : Path)
    (tags : gmap string (gmap string (list Path)))
    : result (gmap string (gmap string (list Path))) :=
  match tags !! tag with
  | None => Panic PanicNilMap
  | Some byTag =>
      Ok (<[tag := <[value := default [] (byTag !! value) ++ [path]]> byTag]> tags)
  end.

(** The closing loop of [Pull] over [h.assetList] and the assets of each
    list.  Go visits the entries of a map in an unspecified order; the model
    visits them in the order of [map_to_list]. *)
Definition indexAssets (h : Handler) : gmap string string :=
  foldl (λ byAsset entry,
           let name := default "" (chainById h !! AssetsChainID entry.2) in
           foldl (λ byAsset asset, <[Display asset := name]> byAsset)
                 byAsset (Assets entry.2))
        (chainByAsset h) (map_to_list (assetList h)).

(** [getPathName]; the receiver is not used. *)
Definition getPathName (chain1Name chain2Name : string) : string :=
  if decide (GoStrings.Compare chain1Name chain2Name = 1)
  then sprintf_dash chain2Name chain1Name
  else sprintf_dash chain1Name chain2Name.

Section Pass.

Variable env : Env.

(** [http.Get(query)] and the reading of the body; the URL is recorded. *)
Definition Get (query : string) : M httpResult :=
  λ h tr, (Ok (httpGet env query), h, tr ++ [query]).

Definition commitsQuery (h : Handler) : string :=
  "https://api.github.com/repos/" +:+ registryUrl h +:+ "/commits?since="
    +:+ formatRFC3339 env (lastUpdated h).

(** A failure to read the body is only logged: decoding goes on with the
    bytes read. *)
Definition recentCommits : M bool :=
  h ← getH;
  let query := commitsQuery h in
  resp ← Get query;
  match resp with
  | GetError => throw (ErrGet query)
  | Response code bodyBytes _ =>
      if decide (code ≠ StatusOK) then throw (ErrStatus query code) else
      match unmarshalList env bodyBytes with
      | None => throw ErrUnmarshal
      | Some body => mret (bool_decide (0 < length body)%nat)
      end
  end.

Definition chainsQuery (h : Handler) : string :=
  "https://api.github.com/repos/" +:+ registryUrl h +:+ "/contents".

Definition getChains : M unit :=
  h ← getH;
  let query := chainsQuery h in
  resp ← Get query;
  match resp with
  | GetError => throw (ErrGet query)
  | Response code bodyBytes readOk =>
      if decide (code ≠ StatusOK) then throw (ErrStatus query code) else
      if negb readOk then throw ErrRead else
      match unmarshalRepo env bodyBytes with
      | None => throw ErrUnmarshalRepo
      | Some repo =>
          chains ← lift (scanChainEntries repo []);
          modify (set_chains chains)
      end
  end.

Definition chainQuery (h : Handler) (name : string) : string :=
  "https://raw.githubusercontent.com/" +:+ registryUrl h +:+ "/master/"
    +:+ name +:+ "/chain.json".

Definition getChain (name : string) : M unit :=
  h ← getH;
  let query := chainQuery h name in
  resp ← Get query;
  match resp with
  | GetError => throw (ErrGet query)
  | Response code bodyBytes readOk =>
      if decide (code = StatusNotFound) then mret tt else
      if decide (code ≠ StatusOK) then throw (ErrStatus query code) else
      if negb readOk then throw ErrRead else
      match unmarshalChain env bodyBytes with
      | None => throw ErrUnmarshal
      | Some chain =>
          modify (λ h, set_chainList (<[name := chain]> (chainList h)) h) ;;
          modify (λ h, set_chainById (<[ChainID chain := name]> (chainById h)) h)
      end
  end.

Definition assetListQuery (h : Handler) (name : string) : string :=
  "https://raw.githubusercontent.com/" +:+ registryUrl h +:+ "/master/"
    +:+ name +:+ "/assetlist.json".

Definition getAssetList (name : string) : M unit :=
  h ← getH;
  let query := assetListQuery h name in
  resp ← Get query;
  match resp with
  | GetError => throw (ErrGet query)
  | Response code bodyBytes readOk =>
      if decide (code = StatusNotFound) then mret tt else
      if decide (code ≠ StatusOK) then throw (ErrStatus query code) else
      if negb readOk then throw ErrRead else
      match unmarshalAssetList env bodyBytes with
      | None => throw ErrUnmarshal
      | Some assets =>
          modify (λ h, set_assetList (<[name := assets]> (assetList h)) h)
      end
  end.

Definition pathsQuery (h : Handler) : string :=
  "https://api.github.com/repos/" +:+ registryUrl h +:+ "/contents/_IBC".

Definition getPaths : M unit :=
  h ← getH;
  let query := pathsQuery h in
  resp ← Get query;
  match resp with
  | GetError => throw (ErrGet query)
  | Response code bodyBytes readOk =>
      if decide (code ≠ StatusOK) then throw (ErrStatus query code) else
      if negb readOk then throw ErrRead else
      match unmarshalRepo env bodyBytes with
      | None => throw ErrUnmarshalRepo
      | Some repo =>
          paths ← lift (scanPathEntries repo []);
          modify (set_paths paths)
      end
  end.

Definition pathQuery (h : Handler) (name : string) : string :=
  "https://raw.githubusercontent.com/" +:+ registryUrl h +:+ "/master/_IBC/"
    +:+ name +:+ ".json".

(** The assignment to [h.pathsByTag[tag][value]] on the handler. *)
Definition appendTagM (tag value : string) (path : Path) : M unit :=
  h ← getH;
  tags ← lift (appendTag tag value path (pathsByTag h));
  modify (set_pathsByTag tags).

(** The body of the loop of [getPath] over [path.Channels]. *)
Definition tagChannel (path : Path) (channel : Channel) : M unit :=
  let status := Status (Tags channel) in
  let dex := Dex (Tags channel) in
  let preferred := FormatBool (Preferred (Tags channel)) in
  let properties := Properties (Tags channel) in
  (if decide (0 < String.length (Dex (Tags channel)))%nat
   then appendTagM DEX dex path else mret tt) ;;
  appendTagM PREFERRED preferred path ;;
  (if decide (0 < String.length (Properties (Tags channel)))%nat
   then appendTagM PROPERTIES properties path else mret tt) ;;
  (if decide (0 < String.length (Status (Tags channel)))%nat
   then appendTagM STATUS status path else mret tt).

Definition getPath (chain1Name chain2Name : string) : M unit :=
  let name := getPathName chain1Name chain2Name in
  h ← getH;
  let query := pathQuery h name in
  resp ← Get query;
  match resp with
  | GetError => throw (ErrGet query)
  | Response code bodyBytes readOk =>
      if decide (code = StatusNotFound) then mret tt else
      if decide (code ≠ StatusOK) then throw (ErrStatus query code) else
      if negb readOk then throw ErrRead else
      match unmarshalPath env bodyBytes with
      | None => throw ErrUnmarshal
      | Some path =>
          modify (λ h, set_pathList (<[name := path]> (pathList h)) h) ;;
          forM_ (Channels path) (tagChannel path)
      end
  end.

Definition Pull : M unit :=
  recent ← recentCommits;
  if negb recent then modify (set_lastUpdated (timeNow env)) else
  getChains ;;
  getPaths ;;
  h ← getH;
  forM_ (chains h) (λ chain, getChain chain ;; getAssetList chain) ;;
  h ← getH;
  forM_ (paths h) (λ path,
    let names := GoStrings.Split path "-" in
    chain1Name ← lift (index names 0);
    chain2Name ← lift (index names 1);
    getPath chain1Name chain2Name) ;;
  modify (λ h, set_chainByAsset (indexAssets h) h) ;;
  modify (set_lastUpdated (timeNow env)).

End Pass.

(** ** Package [server]: the query side *)

Definition findChain (h : Handler) (name : string) : bool * Chain :=
  match chainList h !! name with
  | Some chain => (true, chain)
  | None =>
      match chainById h !! name with
      | None => (false, zeroChain)
      | Some name => (true, default zeroChain (chainList h !! name))
      end
  end.

Definition findPath (h : Handler) (name : string) : bool * Path :=
  match pathList h !! name with
  | None => (false, zeroPath)
  | Some path => (true, path)
  end.

(** The values of [h.pathList], as the loop [for _, path := range h.pathList]
    collects them.  Go visits them in an unspecified order; the model visits
    them in the order of [map_to_list]. *)
Definition allPaths (h : Handler) : list Path :=
  foldl (λ paths entry, paths ++ [entry.2]) [] (map_to_list (pathList h)).

Definition getPathsWithTag (h : Handler) (tag value : string) : result (list Path) :=
  if decide (String.length value = 0%nat) then Ok (allPaths h) else
  match pathsByTag h !! tag with
  | None => Panic (PanicTagKey tag)
  | Some byTag =>
      match byTag !! value with
      | None => Ok []
      | Some matches => Ok matches
      end
  end.

(** What a handler hands to [json.Marshal]. *)
Inductive payload :=
| PStrings (l : list string)
| PChain (c : Chain)
| PAssetList (a : AssetList)
| PAsset (a : Asset)
| PPath (p : Path)
| PPaths (l : list Path).

(** The [http.ResponseWriter], as far as the handlers drive it: the status
    line, fixed by the first [WriteHeader] (a later one is superfluous and
    dropped), and the payloads written to the body.  The fixed CORS and
    content-type headers are not modelled. *)
Record ResponseWriter := {
  statusCode : option Z;
  written : list payload
}.

Definition newResponseWriter : ResponseWriter :=
  {| statusCode := None; written := [] |}.

Definition WriteHeader (code : Z) (w : ResponseWriter) : ResponseWriter :=
  match statusCode w with
  | None => {| statusCode := Some code; written := written w |}
  | Some _ => w
  end.

Definition Write (p : payload) (w : ResponseWriter) : ResponseWriter :=
  {| statusCode := Some (default StatusOK (statusCode w));
     written := written w ++ [p] |}.

Definition respondWithJSON (w : ResponseWriter) (p : payload) : ResponseWriter :=
  Write p (WriteHeader StatusOK w).

Definition resourceNotFound (w : ResponseWriter) : ResponseWriter :=
  WriteHeader StatusNotFound w.

Definition badRequest (w : ResponseWriter) : ResponseWriter :=
  WriteHeader StatusBadRequest w.

(** The handlers registered with the router.  [vars] is [mux.Vars(req)]. *)
Module Routes.

Definition Chains (h : Handler) (res : ResponseWriter) : ResponseWriter :=
  respondWithJSON res (PStrings (chains h)).

Definition Chain (h : Handler) (vars : gmap string string) (res : ResponseWriter)
    : ResponseWriter :=
  match vars !! "chain" with
  | None => badRequest res
  | Some chainName =>
      let '(exists_, chain) := findChain h chainName in
      if negb exists_ then resourceNotFound res
      else respondWithJSON res (PChain chain)
  end.

Definition Endpoints (h : Handler) (vars : gmap string string)
    (res : ResponseWriter) : ResponseWriter :=
  match vars !! "chain" with
  | None => badRequest res
  | Some chainName =>
      match vars !! "type" with
      | None => badRequest res
      | Some endpointType =>
          let '(exists_, chain) := findChain h chainName in
          if negb exists_ then resourceNotFound res else
          if decide (endpointType = "rpc")
          then respondWithJSON res (PStrings (RPC (Apis chain)))
          else if decide (endpointType = "grpc")
          then respondWithJSON res (PStrings (Grpc (Apis chain)))
          else if decide (endpointType = "rest")
          then respondWithJSON res (PStrings (REST (Apis chain)))
          else if decide (endpointType = "peers")
          then respondWithJSON res (PStrings (PersistentPeers (Peers chain)))
          else if decide (endpointType = "seeds")
          then respondWithJSON res (PStrings (Seeds (Peers chain)))
          else badRequest res
      end
  end.

(** After [badRequest] the source does not return: it goes on to look the
    (now empty) chain name up and to respond with the result. *)
Definition ChainAsset (h : Handler) (vars : gmap string string)
    (res : ResponseWriter) : ResponseWriter :=
  match vars !! "chain" with
  | None => badRequest res
  | Some chainName =>
      match assetList h !! chainName with
      | Some assets => respondWithJSON res (PAssetList assets)
      | None =>
          let ok := chainById h !! chainName in
          let chainName := default "" ok in
          let res := if ok is None then badRequest res else res in
          let assets := default zeroAssetList (assetList h !! chainName) in
          respondWithJSON res (PAssetList assets)
      end
  end.

Definition Assets (h : Handler) (res : ResponseWriter) : ResponseWriter :=
  respondWithJSON res (PStrings (assets h)).

Definition Asset (h : Handler) (vars : gmap string string) (res : ResponseWriter)
    : ResponseWriter :=
  match vars !! "asset" with
  | None => badRequest res
  | Some assetName =>
      match chainByAsset h !! assetName with
      | None => resourceNotFound res
      | Some chainName =>
          let assetList := default zeroAssetList (assetList h !! chainName) in
          match list_find (λ asset, Display asset = assetName) (types.Assets assetList) with
          | Some (_, asset) => respondWithJSON res (PAsset asset)
          | None => resourceNotFound res
          end
      end
  end.

Definition PathNames (h : Handler) (res : ResponseWriter) : ResponseWriter :=
  respondWithJSON res (PStrings (paths h)).

Definition Paths (h : Handler) (res : ResponseWriter) : ResponseWriter :=
  respondWithJSON res (PPaths (allPaths h)).

Definition PathsFiltered (h : Handler) (vars : gmap string string)
    (res : ResponseWriter) : result ResponseWriter :=
  match vars !! "dex" with
  | Some dex =>
      matches ← getPathsWithTag h "dex" dex; Ok (respondWithJSON res (PPaths matches))
  | None =>
  match vars !! "preferred" with
  | Some preferred =>
      matches ← getPathsWithTag h "preferred" preferred;
      Ok (respondWithJSON res (PPaths matches))
  | None =>
  match vars !! "properties" with
  | Some properties =>
      matches ← getPathsWithTag h "properties" properties;
      Ok (respondWithJSON res (PPaths matches))
  | None =>
  match vars !! "status" with
  | Some status =>
      matches ← getPathsWithTag h "status" status;
      Ok (respondWithJSON res (PPaths matches))
  | None => Ok (respondWithJSON res (PPaths []))
  end end end end.

Definition Path (h : Handler) (vars : gmap string string) (res : ResponseWriter)
    : result ResponseWriter :=
  match vars !! "path" with
  | None => Ok (badRequest res)
  | Some pathName =>
      let chainNames := GoStrings.Split pathName "-" in
      chain1Name ← index chainNames 0;
      chain2Name ← index chainNames 1;
      let pathName := getPathName chain1Name chain2Name in
      let '(exists_, path) := findPath h pathName in
      if negb exists_ then Ok (resourceNotFound res)
      else Ok (respondWithJSON res (PPath path))
  end.

End Routes.

(** ** Notions used to state the properties *)

(** The tag dimensions [NewHandler] creates an inner map for. *)
Definition recognizedTags : gset string :=
  {[ DEX; PREFERRED; PROPERTIES; STATUS ]}.

(** The tag index holds an inner map for exactly the recognized tags. *)
Definition tagsReady (h : Handler) : Prop :=
  dom (pathsByTag h) = recognizedTags.

(** The bucket of a tag value: [h.pathsByTag[tag][value]], read as Go reads
    it (a missing tag or value yields the nil slice). *)
Definition bucket (tags : gmap string (gmap string (list Path)))
    (tag value : string) : list Path :=
  default [] (tags !! tag ≫= λ byTag, byTag !! value).

(** The number of channels of a list that satisfy a test. *)
Definition countChannels (test : Channel → bool) (channels : list Channel) : nat :=
  length (filter (λ channel, test channel = true) channels).

(** The value under which a channel qualifies for a tag: its string tag
    value when that is not empty, the string form of the flag for
    [preferred]; none for any other tag. *)
Definition tagValue (tag : string) (channel : Channel) : option string :=
  if decide (tag = DEX) then
    (if decide (Dex (Tags channel) = "") then None else Some (Dex (Tags channel)))
  else if decide (tag = PREFERRED) then
    Some (FormatBool (Preferred (Tags channel)))
  else if decide (tag = PROPERTIES) then
    (if decide (Properties (Tags channel) = "") then None
     else Some (Properties (Tags channel)))
  else if decide (tag = STATUS) then
    (if decide (Status (Tags channel) = "") then None
     else Some (Status (Tags channel)))
  else None.

(** The part of a string before the first occurrence of a byte (the whole
    string when the byte does not occur). *)
Fixpoint beforeByte (c : ascii) (s : string) : string :=
  match s with
  | EmptyString => EmptyString
  | String d s' => if decide (c = d) then EmptyString else String d (beforeByte c s')
  end.

(** A directory listing reduced to the type and the name of each entry. *)
Definition describes (repo : list (gmap string json))
    (listing : list (string * string)) : Prop :=
  Forall2 (λ entry tn,
             entry !! "type" = Some (JString tn.1)
             ∧ entry !! "name" = Some (JString tn.2)) repo listing.

(** The path document names the code derives from a listing: for each entry
    of type [file] whose name contains [".json"] and ['-'], in order, the
    part of the name before its first ['.']. *)
Definition keptAsPath (tn : string * string) : bool :=
  bool_decide (tn.1 = "file")
  && GoStrings.Contains tn.2 ".json" && GoStrings.Contains tn.2 "-".

Definition discoveredPaths (listing : list (string * string)) : list string :=
  (λ tn, beforeByte "." tn.2) <$> filter (λ tn, keptAsPath tn = true) listing.

(** The selection as the specification words it: type [file], and a name
    containing a ['.'] and a ['-']. *)
Definition keptAsPathBySpec (tn : string * string) : bool :=
  bool_decide (tn.1 = "file")
  && GoStrings.Contains tn.2 "." && GoStrings.Contains tn.2 "-".

(** A listing entry with just its type and its name. *)
Definition listingEntry (type name : string) : gmap string json :=
  <["type" := JString type]> (<["name" := JString name]> ∅).

(** A document fetch fails: the request itself fails, or it is answered with
    a status other than 200 and 404, or it is answered with status 200 and
    bytes that do not decode. *)
Definition fetchFails {A} (decode : string → option A) (resp : httpResult) : Prop :=
  match resp with
  | GetError => True
  | Response code bodyBytes _ =>
      code ≠ StatusNotFound ∧ (code ≠ StatusOK ∨ decode bodyBytes = None)
  end.

(** What the fetch of one document leaves alone, whatever its outcome. *)
Definition docFrame (h h' : Handler) : Prop :=
  registryUrl h' = registryUrl h
  ∧ lastUpdated h' = lastUpdated h
  ∧ chains h' = chains h
  ∧ assets h' = assets h
  ∧ paths h' = paths h
  ∧ chainByAsset h' = chainByAsset h
  ∧ dom (pathsByTag h') = dom (pathsByTag h).

(** The two chain names [Pull] recovers from a discovered path name. *)
Definition pathChains (path : string) : string * string :=
  (nth 0 (GoStrings.Split path "-") "", nth 1 (GoStrings.Split path "-") "").

(** The URL [Pull] requests for a discovered path name. *)
Definition pathQueryOf (h : Handler) (path : string) : string :=
  pathQuery h (getPathName (pathChains path).1 (pathChains path).2).

(** The body of the loop of [Pull] over the discovered path names. *)
Definition pullPath (env : Env) (path : string) : M unit :=
  let names := GoStrings.Split path "-" in
  chain1Name ← lift (index names 0);
  chain2Name ← lift (index names 1);
  getPath env chain1Name chain2Name.

(** The body of the loop of [Pull] over the discovered chain names. *)
Definition pullChain (env : Env) (chain : string) : M unit :=
  getChain env chain ;; getAssetList env chain.

(** ** Notions used to state what a pass keeps *)

(** A relation between the handler a computation starts from and the one it
    ends with, whatever the outcome (value, error or panic). *)
Definition preserves (R : Handler → Handler → Prop) {A} (m : M A) : Prop :=
  ∀ h tr, R h (m h tr).1.2.

(** The same relation, required only when the outcome is an error or a
    panic. *)
Definition keepsOnFailure (R : Handler → Handler → Prop) {A} (m : M A) : Prop :=
  ∀ h tr, (∀ a, (m h tr).1.1 ≠ Ok a) → R h (m h tr).1.2.

(** Nothing is ever taken away: the registry URL, the asset name list and
    the set of tags stay, no map loses a key, and every tag bucket is only
    extended at its end. *)
Definition grows (h h' : Handler) : Prop :=
  registryUrl h' = registryUrl h
  ∧ assets h' = assets h
  ∧ dom (pathsByTag h') = dom (pathsByTag h)
  ∧ dom (chainList h) ⊆ dom (chainList h')
  ∧ dom (chainById h) ⊆ dom (chainById h')
  ∧ dom (assetList h) ⊆ dom (assetList h')
  ∧ dom (pathList h) ⊆ dom (pathList h')
  ∧ dom (chainByAsset h) ⊆ dom (chainByAsset h')
  ∧ ∀ t v, bucket (pathsByTag h) t v `prefix_of` bucket (pathsByTag h') t v.

(** What a pass that does not complete leaves alone. *)
Definition unpublished (h h' : Handler) : Prop :=
  lastUpdated h' = lastUpdated h ∧ chainByAsset h' = chainByAsset h.

(** Every chain identifier is indexed to the name of a stored chain. *)
Definition idsResolve (h : Handler) : Prop :=
  ∀ id name, chainById h !! id = Some name → is_Some (chainList h !! name).

(** The handlers a server can hold: the one [NewHandler] creates, and the
    one any pass leaves, in any environment and with any outcome. *)
Inductive reachable : Handler → Prop :=
| reachable_new (url : string) : reachable (NewHandler url)
| reachable_pull (env : Env) (h : Handler) (tr : list string) :
    reachable h → reachable (Pull env h tr).1.2.

(** A document fetch goes through: it is answered with 404, or with 200 and
    bytes that are read to the end and decode. *)
Definition fetchGoesThrough {A} (decode : string → option A) (resp : httpResult)
    : Prop :=
  match resp with
  | GetError => False
  | Response code bodyBytes readOk =>
      code = StatusNotFound
      ∨ (code = StatusOK ∧ readOk = true ∧ is_Some (decode bodyBytes))
  end.

(** The chain names the code derives from a listing: for each entry of type
    [dir] whose name contains neither ["testnets"] nor ['.'], in order, its
    name. *)
Definition keptAsChain (tn : string * string) : bool :=
  bool_decide (tn.1 = "dir")
  && negb (GoStrings.Contains tn.2 "testnets")
  && negb (GoStrings.Contains tn.2 ".").

Definition discoveredChains (listing : list (string * string)) : list string :=
  snd <$> filter (λ tn, keptAsChain tn = true) listing.

(** A response with exactly one status line and at most one body write, the
    body being written only with status 200. *)
Definition cleanResponse (w : ResponseWriter) : Prop :=
  (∃ p, w = {| statusCode := Some StatusOK; written := [p] |})
  ∨ w = {| statusCode := Some StatusNotFound; written := [] |}
  ∨ w = {| statusCode := Some StatusBadRequest; written := [] |}.

(** ** The document fetches of a pass, in the order the pass makes them *)

(** One document fetch: the chain document or the asset list of a chain, or
    the document of a discovered path name. *)
Inductive fetch :=
| FChain (chain : string)
| FAssets (chain : string)
| FPath (path : string).

(** For each chain, its chain document and then its asset list. *)
Fixpoint chainFetches (cs : list string) : list fetch :=
  match cs with
  | [] => []
  | chain :: cs' => FChain chain :: FAssets chain :: chainFetches cs'
  end.

(** All the chains first, then the paths. *)
Definition fetchesOf (cs ps : list string) : list fetch :=
  chainFetches cs ++ (FPath <$> ps).

(** The call [Pull] makes for a fetch. *)
Definition runFetch (env : Env) (f : fetch) : M unit :=
  match f with
  | FChain chain => getChain env chain
  | FAssets chain => getAssetList env chain
  | FPath path => pullPath env path
  end.

(** The fetch fails, in the sense of [fetchFails], on the URL the handler
    requests for it. *)
Definition fetchFailsAt (env : Env) (h : Handler) (f : fetch) : Prop :=
  match f with
  | FChain chain =>
      fetchFails (unmarshalChain env) (httpGet env (chainQuery h chain))
  | FAssets chain =>
      fetchFails (unmarshalAssetList env) (httpGet env (assetListQuery h chain))
  | FPath path =>
      fetchFails (unmarshalPath env) (httpGet env (pathQueryOf h path))
  end.

(** What a fetch needs in order not to panic: nothing for a chain; for a
    path, a name that splits into two pieces at least and a tag index with
    its four inner maps. *)
Definition fetchReady (h : Handler) (f : fetch) : Prop :=
  match f with
  | FPath path =>
      tagsReady h ∧ (2 ≤ length (GoStrings.Split path "-"))%nat
  | _ => True
  end.

(** A document is fetched and decoded: status 200, the body read to its
    end, and bytes that decode to the document. *)
Definition fetched {A} (decode : string → option A) (resp : httpResult)
    (doc : A) : Prop :=
  ∃ bodyBytes, resp = Response StatusOK bodyBytes true
    ∧ decode bodyBytes = Some doc.

(** The canonical name under which [Pull] stores the document of a
    discovered path name. *)
Definition pathNameOf (path : string) : string :=
  getPathName (pathChains path).1 (pathChains path).2.

(** The handler [h'] holds what the fetch [f] stores when its document is
    fetched and decoded (the URLs being those the handler [h] requests): a
    chain document under the chain name, with its identifier indexed; an
    asset list under the chain name; a path document under its canonical
    name, and in every tag bucket one of its channels qualifies for. *)
Definition storedBy (env : Env) (h : Handler) (f : fetch) (h' : Handler) : Prop :=
  match f with
  | FChain chain =>
      ∀ doc, fetched (unmarshalChain env) (httpGet env (chainQuery h chain)) doc →
        chainList h' !! chain = Some doc
        ∧ is_Some (chainById h' !! ChainID doc)
  | FAssets chain =>
      ∀ doc,
        fetched (unmarshalAssetList env) (httpGet env (assetListQuery h chain)) doc →
        assetList h' !! chain = Some doc
  | FPath path =>
      ∀ doc, fetched (unmarshalPath env) (httpGet env (pathQueryOf h path)) doc →
        pathList h' !! pathNameOf path = Some doc
        ∧ ∀ t v channel, channel ∈ Channels doc →
            tagValue t channel = Some v →
            doc ∈ bucket (pathsByTag h') t v
  end.

(** ** A small registry, used to instantiate the properties *)

Module Scenario.

Definition registry : string := "cosmos/chain-registry".

Definition atomChain : Chain :=
  {| ChainID := "cosmoshub-4"; Name := "atom";
     Apis := {| RPC := ["https://rpc.atom.example"]; Grpc := []; REST := [] |};
     Peers := {| Seeds := []; PersistentPeers := [] |} |}.

Definition transferEnd (channel : string) : ChannelEnd :=
  {| ChannelID := channel; PortID := "transfer" |}.

Definition liveChannel : Channel :=
  {| ChannelChain1 := transferEnd "channel-141";
     ChannelChain2 := transferEnd "channel-0";
     Ordering := "unordered"; Version := "ics20-1";
     Tags := {| Status := "live"; Preferred := true; Dex := "osmosis";
                Properties := "" |} |}.

Definition spareChannel : Channel :=
  {| ChannelChain1 := transferEnd "channel-300";
     ChannelChain2 := transferEnd "channel-9";
     Ordering := "unordered"; Version := "ics20-1";
     Tags := {| Status := ""; Preferred := false; Dex := "osmosis";
                Properties := "" |} |}.

Definition atomOsmoPath : Path :=
  {| Chain1 := {| ChainName := "atom"; ClientID := "07-tendermint-259";
                  ConnectionID := "connection-257" |};
     Chain2 := {| ChainName := "osmo"; ClientID := "07-tendermint-1";
                  ConnectionID := "connection-1" |};
     Channels := [liveChannel; spareChannel] |}.

Definition rootListing : list (gmap string json) :=
  [listingEntry "dir" "atom"; listingEntry "dir" "osmo";
   listingEntry "file" "README.md"; listingEntry "dir" "testnets";
   listingEntry "dir" ".github"].

Definition ibcListing : list (gmap string json) :=
  [listingEntry "file" "atom-osmo.json"; listingEntry "file" "README.md";
   listingEntry "file" "atom-osmo.txt"].

(** The remote: commits exist; both listings are served; the chain document
    of [atom] is served; the chain document of [osmo] fails with status 500;
    the path document is served; every other document is absent (404). *)
Definition remote (url : string) : httpResult :=
  if decide (url = "https://api.github.com/repos/cosmos/chain-registry/commits?since=1970-01-01T00:00:00Z")
  then Response 200 "commits" true
  else if decide (url = "https://api.github.com/repos/cosmos/chain-registry/contents")
  then Response 200 "root" true
  else if decide (url = "https://api.github.com/repos/cosmos/chain-registry/contents/_IBC")
  then Response 200 "ibc" true
  else if decide (url = "https://raw.githubusercontent.com/cosmos/chain-registry/master/atom/chain.json")
  then Response 200 "atom" true
  else if decide (url = "https://raw.githubusercontent.com/cosmos/chain-registry/master/osmo/chain.json")
  then Response 500 "" true
  else if decide (url = "https://raw.githubusercontent.com/cosmos/chain-registry/master/_IBC/atom-osmo.json")
  then Response 200 "atom-osmo" true
  else Response 404 "" true.

Definition env : Env :=
  {| httpGet := remote;
     timeNow := 1700000000;
     formatRFC3339 := λ _, "1970-01-01T00:00:00Z";
     unmarshalList := λ b, if decide (b = "commits") then Some [JNull] else None;
     unmarshalRepo := λ b,
       if decide (b = "root") then Some rootListing
       else if decide (b = "ibc") then Some ibcListing else None;
     unmarshalChain := λ b, if decide (b = "atom") then Some atomChain else None;
     unmarshalAssetList := λ _, None;
     unmarshalPath := λ b,
       if decide (b = "atom-osmo") then Some atomOsmoPath else None |}.

(** The same remote when no commit is newer than the last pass. *)
Definition quietEnv : Env :=
  {| httpGet := remote;
     timeNow := 1700000000;
     formatRFC3339 := formatRFC3339 env;
     unmarshalList := λ b, if decide (b = "commits") then Some [] else None;
     unmarshalRepo := unmarshalRepo env;
     unmarshalChain := unmarshalChain env;
     unmarshalAssetList := unmarshalAssetList env;
     unmarshalPath := unmarshalPath env |}.

(** The same remote when the path document cannot be decoded. *)
Definition brokenPathEnv : Env :=
  {| httpGet := λ url,
       if decide (url = "https://raw.githubusercontent.com/cosmos/chain-registry/master/osmo/chain.json")
       then Response 404 "" true else remote url;
     timeNow := 1700000000;
     formatRFC3339 := formatRFC3339 env;
     unmarshalList := unmarshalList env;
     unmarshalRepo := unmarshalRepo env;
     unmarshalChain := unmarshalChain env;
     unmarshalAssetList := unmarshalAssetList env;
     unmarshalPath := λ _, None |}.

(** The same remote when the second entry of either listing has no [type]. *)
Definition untypedListing : list (gmap string json) :=
  [listingEntry "dir" "atom"; {["name" := JString "osmo"]}].

Definition untypedEnv : Env :=
  {| httpGet := remote;
     timeNow := 1700000000;
     formatRFC3339 := formatRFC3339 env;
     unmarshalList := unmarshalList env;
     unmarshalRepo := λ _, Some untypedListing;
     unmarshalChain := unmarshalChain env;
     unmarshalAssetList := unmarshalAssetList env;
     unmarshalPath := unmarshalPath env |}.

(** The same remote when the commit query is answered with status 403. *)
Definition rateLimitedEnv : Env :=
  {| httpGet := λ url,
       if decide (url = "https://api.github.com/repos/cosmos/chain-registry/commits?since=1970-01-01T00:00:00Z")
       then Response 403 "" true else remote url;
     timeNow := 1700000000;
     formatRFC3339 := formatRFC3339 env;
     unmarshalList := unmarshalList env;
     unmarshalRepo := unmarshalRepo env;
     unmarshalChain := unmarshalChain env;
     unmarshalAssetList := unmarshalAssetList env;
     unmarshalPath := unmarshalPath env |}.

(** The same remote when every document is there: the chain document of
    [osmo] is absent instead of failing. *)
Definition healthyEnv : Env :=
  {| httpGet := httpGet brokenPathEnv;
     timeNow := 1700000000;
     formatRFC3339 := formatRFC3339 env;
     unmarshalList := unmarshalList env;
     unmarshalRepo := unmarshalRepo env;
     unmarshalChain := unmarshalChain env;
     unmarshalAssetList := unmarshalAssetList env;
     unmarshalPath := unmarshalPath env |}.

(** The healthy remote when the path directory also holds a file whose name
    has a ['.'] before its first ['-']. *)
Definition dottedListing : list (gmap string json) :=
  [listingEntry "file" "atom-osmo.json"; listingEntry "file" "v2.atom-osmo.json"].

Definition dottedEnv : Env :=
  {| httpGet := httpGet brokenPathEnv;
     timeNow := 1700000000;
     formatRFC3339 := formatRFC3339 env;
     unmarshalList := unmarshalList env;
     unmarshalRepo := λ b,
       if decide (b = "root") then Some rootListing
       else if decide (b = "ibc") then Some dottedListing else None;
     unmarshalChain := unmarshalChain env;
     unmarshalAssetList := unmarshalAssetList env;
     unmarshalPath := unmarshalPath env |}.

(** Two asset lists, the second under a chain identifier no chain has. *)
Definition atomAssets : AssetList :=
  {| AssetsChainID := "cosmoshub-4";
     Assets := [{| Display := "atom" |}; {| Display := "uatom" |}] |}.

Definition strayAssets : AssetList :=
  {| AssetsChainID := "nowhere-1"; Assets := [{| Display := "stray" |}] |}.

Definition stocked : Handler :=
  set_chainByAsset (<["atom" := "atom"]> ∅)
    (set_assetList (<["atom" := atomAssets]> ∅)
       (set_chainById (<["cosmoshub-4" := "atom"]> ∅)
          (set_chainList (<["atom" := atomChain]> ∅) (NewHandler registry)))).

End Scenario.

(** * Properties *)

#[local] Set Warnings "-clear-no-such-hyp".

(** ** Facts about the string functions *)

Section StringFacts.

Lemma prefix_empty (s : string) : String.prefix "" s = true.
Proof. by destruct s. Qed.

Lemma prefix_cons (a b : ascii) (s1 s2 : string) :
  String.prefix (String a s1) (String b s2)
  = bool_decide (a = b) && String.prefix s1 s2.
Proof.
  simpl. destruct (ascii_dec a b) as [->|Hne].
  - by rewrite bool_decide_eq_true_2.
  - by rewrite bool_decide_eq_false_2.
Qed.

(** [String.prefix] is the executable form of "is an initial segment of". *)
Lemma prefix_spec (p s : string) :
  String.prefix p s = true ↔ ∃ post, s = p +:+ post.
Proof.
  revert s. induction p as [|a p IH]; intros s.
  - rewrite prefix_empty. split; [intros _; by exists s|done].
  - destruct s as [|b s].
    + simpl. split; [done|]. intros [post Hpost]. discriminate Hpost.
    + rewrite prefix_cons, andb_true_iff, bool_decide_eq_true, IH.
      split.
      * intros [-> [post ->]]. by exists post.
      * intros [post Hpost]. injection Hpost as -> ->. eauto.
Qed.

(** [Contains] is the executable form of "occurs as a substring of". *)
Lemma Contains_spec (s sub : string) :
  GoStrings.Contains s sub = true ↔ ∃ pre post, s = pre +:+ sub +:+ post.
Proof.
  induction s as [|c s IH].
  - cbn [GoStrings.Contains]. rewrite orb_false_r, prefix_spec. split.
    + intros [post ->]. by exists "", post.
    + intros [pre [post Heq]]. destruct pre; [by exists post|discriminate Heq].
  - cbn [GoStrings.Contains]. rewrite orb_true_iff, prefix_spec, IH. split.
    + intros [[post ->]|[pre [post ->]]].
      * by exists "", post.
      * by exists (String c pre), post.
    + intros [pre [post Heq]]. destruct pre as [|d pre].
      * left. by exists post.
      * right. injection Heq as -> ->. by exists pre, post.
Qed.

Lemma Contains_byte_cons (c d : ascii) (s : string) :
  GoStrings.Contains (String d s) (String c "")
  = bool_decide (c = d) || GoStrings.Contains s (String c "").
Proof.
  cbn [GoStrings.Contains]. by rewrite prefix_cons, prefix_empty, andb_true_r.
Qed.

Lemma Contains_byte_app (c : ascii) (s t : string) :
  GoStrings.Contains (s +:+ t) (String c "")
  = GoStrings.Contains s (String c "") || GoStrings.Contains t (String c "").
Proof.
  induction s as [|d s IH].
  - by destruct t.
  - change (String d s +:+ t) with (String d (s +:+ t)).
    by rewrite !Contains_byte_cons, IH, orb_assoc.
Qed.

Lemma SplitFrom_byte_cons (c d : ascii) (s : string) :
  GoStrings.SplitFrom (String c "") 0 (String d s)
  = if bool_decide (c = d)
    then "" :: GoStrings.SplitFrom (String c "") 0 s
    else match GoStrings.SplitFrom (String c "") 0 s with
         | piece :: rest => String d piece :: rest
         | [] => [String d ""]
         end.
Proof.
  cbn [GoStrings.SplitFrom]. rewrite prefix_cons, prefix_empty, andb_true_r.
  by destruct (bool_decide (c = d)).
Qed.

(** A string without the separator byte is the only piece of its split. *)
Lemma Split_byte_absent (c : ascii) (s : string) :
  GoStrings.Contains s (String c "") = false →
  GoStrings.Split s (String c "") = [s].
Proof.
  unfold GoStrings.Split. induction s as [|d s IH]; [done|].
  rewrite Contains_byte_cons, SplitFrom_byte_cons.
  intros [Hd Hs]%orb_false_iff. rewrite Hd, (IH Hs). done.
Qed.

(** The first piece ends at the first separator byte. *)
Lemma Split_byte_app (c : ascii) (s t : string) :
  GoStrings.Contains s (String c "") = false →
  GoStrings.Split (s +:+ String c t) (String c "")
  = s :: GoStrings.Split t (String c "").
Proof.
  unfold GoStrings.Split. induction s as [|d s IH]; intros Hs.
  - change ("" +:+ String c t) with (String c t).
    by rewrite SplitFrom_byte_cons, bool_decide_eq_true_2.
  - change (String d s +:+ String c t) with (String d (s +:+ String c t)).
    rewrite Contains_byte_cons in Hs. apply orb_false_iff in Hs as [Hd Hs].
    by rewrite SplitFrom_byte_cons, Hd, (IH Hs).
Qed.

Lemma Split_nonempty (sep : string) (skip : nat) (s : string) :
  GoStrings.SplitFrom sep skip s ≠ [].
Proof.
  revert skip. induction s as [|d s IH]; intros skip; [done|].
  cbn [GoStrings.SplitFrom]. destruct skip as [|k]; [|apply IH].
  destruct (String.prefix sep (String d s)); [done|].
  by destruct (GoStrings.SplitFrom sep 0 s).
Qed.

Lemma Compare_gt (a b : string) :
  GoStrings.Compare a b = 1 ↔ String.compare a b = Gt.
Proof. unfold GoStrings.Compare. by destruct (String.compare a b). Qed.

Lemma Compare_gt_swap (a b : string) :
  GoStrings.Compare a b = 1 → GoStrings.Compare b a ≠ 1.
Proof.
  rewrite !Compare_gt, (String.compare_antisym b a). by intros ->.
Qed.

Lemma Compare_not_gt_swap (a b : string) :
  GoStrings.Compare a b ≠ 1 → GoStrings.Compare b a ≠ 1 → a = b.
Proof.
  rewrite !Compare_gt, (String.compare_antisym b a). intros Hab Hba.
  apply String.compare_eq_iff. by destruct (String.compare a b).
Qed.

End StringFacts.

(** ** Canonical path names *)

Lemma getPathName_sym (a b : string) : getPathName a b = getPathName b a.
Proof.
  unfold getPathName.
  destruct (decide (GoStrings.Compare a b = 1)) as [Hab|Hab];
    destruct (decide (GoStrings.Compare b a = 1)) as [Hba|Hba]; try done.
  - by apply Compare_gt_swap in Hab.
  - by rewrite (Compare_not_gt_swap a b Hab Hba).
Qed.

Lemma getPathName_ordered (a b : string) :
  ∃ lo hi, ((lo = a ∧ hi = b) ∨ (lo = b ∧ hi = a))
    ∧ String.leb lo hi = true
    ∧ getPathName a b = lo +:+ "-" +:+ hi.
Proof.
  unfold getPathName, sprintf_dash.
  destruct (decide (GoStrings.Compare a b = 1)) as [Hab|Hab].
  - exists b, a. split; [by right|]. split; [|done].
    apply Compare_gt in Hab. unfold String.leb.
    by rewrite (String.compare_antisym b a), Hab.
  - exists a, b. split; [by left|]. split; [|done].
    rewrite Compare_gt in Hab. unfold String.leb.
    by destruct (String.compare a b).
Qed.

(** C2. The canonical path name does not depend on the order of the two
    chain names, it puts the lexicographically smaller name (byte-wise
    order) first, and the lookup of a path by its two chain names gives the
    same outcome in either order, on every handler state. *)
Theorem getPathName_symmetric_ordered (h : Handler) (a b : string) :
  getPathName a b = getPathName b a
  ∧ (∃ lo hi, ((lo = a ∧ hi = b) ∨ (lo = b ∧ hi = a))
       ∧ String.leb lo hi = true
       ∧ getPathName a b = lo +:+ "-" +:+ hi)
  ∧ findPath h (getPathName a b) = findPath h (getPathName b a).
Proof.
  split; [apply getPathName_sym|]. split; [apply getPathName_ordered|].
  by rewrite getPathName_sym.
Qed.

(** The same at the route: for chain names free of the separator, the
    request for ["a-b"] and the request for ["b-a"] are answered alike. *)
Lemma Path_route_symmetric (h : Handler) (a b : string) (res : ResponseWriter) :
  GoStrings.Contains a "-" = false →
  GoStrings.Contains b "-" = false →
  Routes.Path h {["path" := a +:+ "-" +:+ b]} res
  = Routes.Path h {["path" := b +:+ "-" +:+ a]} res.
Proof.
  intros Ha Hb. unfold Routes.Path. rewrite !lookup_singleton_eq.
  change (a +:+ "-" +:+ b) with (a +:+ String "-"%char b).
  change (b +:+ "-" +:+ a) with (b +:+ String "-"%char a).
  rewrite !Split_byte_app, !Split_byte_absent by done.
  cbn. by rewrite (getPathName_sym a b).
Qed.

(** C10. A requested path string without ['-'] makes the route index the
    second element of a one-element split: it panics with an index out of
    range instead of answering bad-request or not-found. *)
Theorem Path_route_panics_without_dash (h : Handler)
    (vars : gmap string string) (res : ResponseWriter) (pathName : string) :
  vars !! "path" = Some pathName →
  GoStrings.Contains pathName "-" = false →
  Routes.Path h vars res = Panic (PanicIndex 1 1).
Proof.
  intros Hvar Hdash. unfold Routes.Path. rewrite Hvar.
  by rewrite (Split_byte_absent _ _ Hdash).
Qed.

Lemma Path_route_panics_without_dash_witness :
  Routes.Path (NewHandler "cosmos/chain-registry") {["path" := "osmosis"]}
    newResponseWriter = Panic (PanicIndex 1 1).
Proof.
  apply (Path_route_panics_without_dash _ _ _ "osmosis"); reflexivity.
Defined.

(** ** Resolution of a chain key *)

(** C3. [findChain] tries the key as a chain name, then as a chain
    identifier, and returns the chain it resolves to; it reports not-found
    exactly when the key is neither a key of [chainList] nor a key of
    [chainById], and then the route answers with status 404. *)
Theorem findChain_two_stage (h : Handler) (key : string) :
  (∀ chain, chainList h !! key = Some chain → findChain h key = (true, chain))
  ∧ (∀ name, chainList h !! key = None → chainById h !! key = Some name →
       findChain h key = (true, default zeroChain (chainList h !! name)))
  ∧ (findChain h key = (false, zeroChain)
       ↔ chainList h !! key = None ∧ chainById h !! key = None)
  ∧ ((findChain h key).1 = false
       ↔ chainList h !! key = None ∧ chainById h !! key = None)
  ∧ (statusCode (Routes.Chain h {["chain" := key]} newResponseWriter)
       = Some StatusNotFound
       ↔ chainList h !! key = None ∧ chainById h !! key = None).
Proof.
  unfold Routes.Chain, findChain. rewrite lookup_singleton_eq.
  destruct (chainList h !! key) as [chain|] eqn:Hname;
    [|destruct (chainById h !! key) as [name|] eqn:Hid]; cbn;
    repeat split; intros; destruct_and?; simplify_eq; done.
Qed.

(** ** The route of the asset lists *)

(** C4 (the behaviour of the code).  For a key that is neither a key of
    [assetList] nor a key of [chainById] the route sets status 400, does not
    return, and writes the asset list stored under the empty chain name (the
    zero asset list when there is none) as the body. *)
Theorem ChainAsset_unresolved_key (h : Handler) (key : string) :
  assetList h !! key = None →
  chainById h !! key = None →
  Routes.ChainAsset h {["chain" := key]} newResponseWriter
  = {| statusCode := Some StatusBadRequest;
       written := [PAssetList (default zeroAssetList (assetList h !! ""))] |}.
Proof.
  intros Hname Hid. unfold Routes.ChainAsset.
  by rewrite lookup_singleton_eq, Hname, Hid.
Qed.

Lemma ChainAsset_unresolved_key_witness :
  Routes.ChainAsset (NewHandler "cosmos/chain-registry") {["chain" := "nochain"]}
    newResponseWriter
  = {| statusCode := Some StatusBadRequest;
       written := [PAssetList zeroAssetList] |}.
Proof.
  apply (ChainAsset_unresolved_key (NewHandler "cosmos/chain-registry") "nochain");
    reflexivity.
Defined.

(** The sibling route answers the same unresolved key with 404 and writes
    no body. *)
Lemma Chain_unresolved_key (h : Handler) (key : string) :
  chainList h !! key = None →
  chainById h !! key = None →
  Routes.Chain h {["chain" := key]} newResponseWriter
  = {| statusCode := Some StatusNotFound; written := [] |}.
Proof.
  intros Hname Hid. unfold Routes.Chain, findChain.
  by rewrite lookup_singleton_eq, Hname, Hid.
Qed.

(** The two stages of the asset-list route when the key does resolve. *)
Lemma ChainAsset_resolved (h : Handler) (key : string) :
  (∀ assets, assetList h !! key = Some assets →
     Routes.ChainAsset h {["chain" := key]} newResponseWriter
     = respondWithJSON newResponseWriter (PAssetList assets))
  ∧ (∀ name, assetList h !! key = None → chainById h !! key = Some name →
     Routes.ChainAsset h {["chain" := key]} newResponseWriter
     = respondWithJSON newResponseWriter
         (PAssetList (default zeroAssetList (assetList h !! name)))).
Proof.
  unfold Routes.ChainAsset. rewrite lookup_singleton_eq. split.
  - by intros assets ->.
  - by intros name -> ->.
Qed.

(** ** Retrieval of paths by tag *)

Lemma NewHandler_tagsReady (url : string) : tagsReady (NewHandler url).
Proof.
  unfold tagsReady, NewHandler, recognizedTags. cbn.
  rewrite !dom_insert_L, dom_empty_L. set_solver.
Qed.

Lemma tagsReady_lookup (h : Handler) (tag : string) :
  tagsReady h → (is_Some (pathsByTag h !! tag) ↔ tag ∈ recognizedTags).
Proof. intros <-. by rewrite elem_of_dom. Qed.

Lemma allPaths_values (h : Handler) :
  allPaths h = (map_to_list (pathList h)).*2.
Proof.
  unfold allPaths.
  enough (∀ (l : list (string * Path)) acc,
    foldl (λ paths entry, paths ++ [entry.2]) acc l = acc ++ l.*2) as H
    by apply (H _ []).
  induction l as [|e l IH]; intros acc; cbn.
  - by rewrite app_nil_r.
  - by rewrite IH, <-app_assoc.
Qed.

Lemma elem_of_allPaths (h : Handler) (p : Path) :
  p ∈ allPaths h ↔ ∃ name, pathList h !! name = Some p.
Proof.
  rewrite allPaths_values, list_elem_of_fmap. split.
  - intros [[name q] [-> Hin%elem_of_map_to_list]]. by exists name.
  - intros [name Hin]. exists (name, p). by rewrite elem_of_map_to_list.
Qed.

(** C6 (as the code has it).  With a non-empty value, a tag outside the four
    recognized names makes [getPathsWithTag] panic on every handler whose
    tag index holds exactly the recognized tags. *)
Theorem getPathsWithTag_unrecognized_tag_panics (h : Handler) (tag value : string) :
  tagsReady h →
  tag ∉ recognizedTags →
  value ≠ "" →
  getPathsWithTag h tag value = Panic (PanicTagKey tag).
Proof.
  intros Hready Htag Hvalue. unfold getPathsWithTag.
  destruct (decide (String.length value = 0%nat)) as [Hlen|_].
  { by destruct value. }
  destruct (pathsByTag h !! tag) as [byTag|] eqn:Hlookup; [|done].
  exfalso. apply Htag, (tagsReady_lookup h tag Hready). eauto.
Qed.

Lemma getPathsWithTag_unrecognized_tag_panics_witness :
  getPathsWithTag (NewHandler "cosmos/chain-registry") "color" "blue"
  = Panic (PanicTagKey "color").
Proof.
  apply getPathsWithTag_unrecognized_tag_panics.
  - apply NewHandler_tagsReady.
  - apply (bool_decide_unpack _). vm_compute. exact I.
  - discriminate.
Defined.

(** C6 as stated fails: with the empty value an unrecognized tag is not
    looked at, and the call returns all paths. *)
Lemma getPathsWithTag_unrecognized_tag_empty_value :
  ("color" ∉ recognizedTags)
  ∧ tagsReady (NewHandler "cosmos/chain-registry")
  ∧ getPathsWithTag (NewHandler "cosmos/chain-registry") "color" "" = Ok []
  ∧ ¬ (∀ value : string,
         ∃ p, getPathsWithTag (NewHandler "cosmos/chain-registry") "color" value
              = Panic p).
Proof.
  split; [apply (bool_decide_unpack _); vm_compute; exact I|].
  split; [apply NewHandler_tagsReady|]. split; [reflexivity|].
  intros H. destruct (H "") as [p Hp]. discriminate Hp.
Qed.

(** With the empty value the tag is never looked at. *)
Lemma getPathsWithTag_empty_value (h : Handler) (tag : string) :
  getPathsWithTag h tag "" = Ok (allPaths h).
Proof. reflexivity. Qed.

(** C7. With the empty value [getPathsWithTag] returns all paths, the
    collection the route of all paths responds with (the values of
    [pathList]); with a recognized tag and a non-empty value that has no
    bucket under that tag it returns the empty slice. *)
Theorem getPathsWithTag_all_or_none (h : Handler) (tag : string) :
  (getPathsWithTag h tag "" = Ok (allPaths h)
   ∧ (∀ res, Routes.Paths h res = respondWithJSON res (PPaths (allPaths h)))
   ∧ (∀ p, p ∈ allPaths h ↔ ∃ name, pathList h !! name = Some p))
  ∧ (∀ value byTag,
       value ≠ "" →
       pathsByTag h !! tag = Some byTag →
       byTag !! value = None →
       getPathsWithTag h tag value = Ok []).
Proof.
  split.
  - split; [reflexivity|]. split; [reflexivity|]. apply elem_of_allPaths.
  - intros value byTag Hvalue Htag Hbucket. unfold getPathsWithTag.
    destruct (decide (String.length value = 0%nat)) as [Hlen|_].
    { by destruct value. }
    by rewrite Htag, Hbucket.
Qed.

(** On a handler whose tag index is ready, a recognized tag does have an
    inner map, so the second case of C7 is not vacuous. *)
Lemma getPathsWithTag_recognized_unknown_value (h : Handler) (tag value : string) :
  tagsReady h →
  tag ∈ recognizedTags →
  value ≠ "" →
  (pathsByTag h !! tag ≫= λ byTag, byTag !! value) = None →
  getPathsWithTag h tag value = Ok [].
Proof.
  intros Hready Htag Hvalue Hbucket.
  apply (tagsReady_lookup h tag Hready) in Htag as [byTag HbyTag].
  rewrite HbyTag in Hbucket. cbn in Hbucket. unfold getPathsWithTag.
  destruct (decide (String.length value = 0%nat)) as [Hlen|_].
  { by destruct value. }
  by rewrite HbyTag, Hbucket.
Qed.

(** ** Discovery of the path documents *)

Lemma Split_byte_head (c : ascii) (s : string) :
  index (GoStrings.Split s (String c "")) 0 = Ok (beforeByte c s).
Proof.
  unfold GoStrings.Split. induction s as [|d s IH]; [done|].
  rewrite SplitFrom_byte_cons. cbn [beforeByte].
  destruct (decide (c = d)) as [->|Hne].
  - by rewrite bool_decide_eq_true_2.
  - rewrite bool_decide_eq_false_2 by done.
    destruct (GoStrings.SplitFrom (String c "") 0 s) as [|piece rest] eqn:Hs.
    + by apply Split_nonempty in Hs.
    + unfold index in *. cbn in *. by simplify_eq.
Qed.

(** What [beforeByte] returns: the initial segment of the string that is
    free of the byte and is followed by the byte or by the end. *)
Lemma beforeByte_spec (c : ascii) (s : string) :
  GoStrings.Contains (beforeByte c s) (String c "") = false
  ∧ (s = beforeByte c s ∨ ∃ rest, s = beforeByte c s +:+ String c rest).
Proof.
  induction s as [|d s [IHfree IHrest]]; [by split; [|left]|].
  cbn [beforeByte]. destruct (decide (c = d)) as [->|Hne].
  - split; [done|]. right. by exists s.
  - rewrite Contains_byte_cons, bool_decide_eq_false_2 by done.
    split; [done|]. destruct IHrest as [Heq|[rest Heq]].
    + left. by rewrite <-Heq.
    + right. exists rest. by rewrite Heq at 1.
Qed.

Lemma scanPathEntries_describes (repo : list (gmap string json))
    (listing : list (string * string)) (acc : list string) :
  describes repo listing →
  scanPathEntries repo acc = Ok (acc ++ discoveredPaths listing).
Proof.
  intros Hdesc. revert acc.
  induction Hdesc as [|entry [type name] repo listing [Htype Hname] _ IH];
    intros acc.
  - by rewrite app_nil_r.
  - cbn in Htype, Hname. unfold discoveredPaths. rewrite filter_cons.
    cbn [scanPathEntries]. rewrite Htype.
    cbn [assertString mbind result_mbind result_bind].
    destruct (decide (type ≠ "file")) as [Hne|Heq].
    { rewrite decide_False; [apply IH|].
      unfold keptAsPath. cbn [fst snd]. by case_bool_decide. }
    apply dec_stable in Heq as ->.
    rewrite Hname. cbn [assertString mbind result_mbind result_bind].
    destruct (GoStrings.Contains name ".json") eqn:Hjs; cbn [negb].
    2:{ rewrite decide_False; [apply IH|].
        unfold keptAsPath. cbn [fst snd]. rewrite Hjs. by case_bool_decide. }
    destruct (GoStrings.Contains name "-") eqn:Hdash; cbn [negb].
    2:{ rewrite decide_False; [apply IH|].
        unfold keptAsPath. cbn [fst snd]. rewrite Hjs, Hdash.
        by case_bool_decide. }
    rewrite decide_True.
    2:{ unfold keptAsPath. cbn [fst snd]. rewrite Hjs, Hdash.
        by case_bool_decide. }
    change "."%string with (String "."%char "").
    rewrite Split_byte_head. cbn [mbind result_mbind result_bind].
    rewrite IH, fmap_cons. cbn [snd]. by rewrite <-app_assoc.
Qed.

(** C9 (as the code has it).  When the listing of the path-definition
    directory is fetched and decoded, [getPaths] keeps exactly the entries of
    type [file] whose name contains the substring [".json"] and a ['-'], in
    the order of the listing, and stores for each the part of its name before
    its first ['.']. *)
Theorem getPaths_discovery (env : Env) (h : Handler) (tr : list string)
    (bodyBytes : string) (repo : list (gmap string json))
    (listing : list (string * string)) :
  httpGet env (pathsQuery h) = Response StatusOK bodyBytes true →
  unmarshalRepo env bodyBytes = Some repo →
  describes repo listing →
  getPaths env h tr
  = (Ok tt, set_paths (discoveredPaths listing) h, tr ++ [pathsQuery h])
  ∧ (∀ name, name ∈ discoveredPaths listing ↔
       ∃ file, ("file", file) ∈ listing
         ∧ GoStrings.Contains file ".json" = true
         ∧ GoStrings.Contains file "-" = true
         ∧ name = beforeByte "." file).
Proof.
  intros Hget Hjson Hdesc. split.
  - unfold getPaths, Get, getH, lift, modify.
    cbv [mbind M_mbind M_bind]. rewrite Hget. cbn.
    unfold throw. rewrite Hjson.
    by rewrite (scanPathEntries_describes repo listing [] Hdesc).
  - intros name. unfold discoveredPaths. rewrite list_elem_of_fmap. split.
    + intros [[type file] [-> [Hkept Hin]%list_elem_of_filter]].
      unfold keptAsPath in Hkept. cbn in Hkept.
      apply andb_true_iff in Hkept as [[Htype Hjs]%andb_true_iff Hdash].
      apply bool_decide_eq_true in Htype as ->. by exists file.
    + intros [file (Hin & Hjs & Hdash & ->)]. exists ("file", file).
      split; [done|]. apply list_elem_of_filter. split; [|done].
      unfold keptAsPath. cbn. by rewrite Hjs, Hdash.
Qed.

Lemma getPaths_discovery_witness :
  getPaths Scenario.env (NewHandler Scenario.registry) []
  = (Ok tt, set_paths ["atom-osmo"] (NewHandler Scenario.registry),
     [pathsQuery (NewHandler Scenario.registry)]).
Proof.
  apply (getPaths_discovery Scenario.env (NewHandler Scenario.registry) [] "ibc"
           Scenario.ibcListing
           [("file", "atom-osmo.json"); ("file", "README.md");
            ("file", "atom-osmo.txt")]).
  - reflexivity.
  - reflexivity.
  - repeat constructor.
Defined.

(** C9 as stated fails.  A file whose name has a ['.'] and a ['-'] but not
    the substring [".json"] is not kept, and a kept name is cut at its first
    ['.'], which is not where its extension starts when the name has an
    earlier ['.']. *)
Lemma getPaths_not_by_dot_and_dash :
  keptAsPathBySpec ("file", "atom-osmo.txt") = true
  ∧ scanPathEntries [listingEntry "file" "atom-osmo.txt"] [] = Ok []
  ∧ keptAsPathBySpec ("file", "v2.atom-osmo.json") = true
  ∧ scanPathEntries [listingEntry "file" "v2.atom-osmo.json"] [] = Ok ["v2"]
  ∧ ¬ (∀ listing : list (string * string),
         scanPathEntries ((λ tn, listingEntry tn.1 tn.2) <$> listing) []
         = Ok ((λ tn, beforeByte "." tn.2)
                 <$> filter (λ tn, keptAsPathBySpec tn = true) listing)).
Proof.
  split; [reflexivity|]. split; [reflexivity|]. split; [reflexivity|].
  split; [reflexivity|].
  intros H. specialize (H [("file", "atom-osmo.txt")]). discriminate H.
Qed.

(** ** The tag index built by [getPath] *)

Lemma length_pos_nonempty (s : string) :
  (0 < String.length s)%nat ↔ s ≠ "".
Proof. destruct s; cbn; [split; [lia|done]|split; [done|lia]]. Qed.

Lemma bucket_insert (tags : gmap string (gmap string (list Path)))
    (byTag : gmap string (list Path)) (tag value t v : string) (l : list Path) :
  tags !! tag = Some byTag →
  bucket (<[tag := <[value := l]> byTag]> tags) t v
  = if bool_decide (t = tag ∧ v = value) then l else bucket tags t v.
Proof.
  intros Htag. unfold bucket.
  destruct (decide (t = tag)) as [->|Ht].
  - rewrite lookup_insert_eq, Htag. cbn.
    destruct (decide (v = value)) as [->|Hv].
    + rewrite lookup_insert_eq. by rewrite bool_decide_eq_true_2.
    + rewrite lookup_insert_ne by done.
      rewrite bool_decide_eq_false_2; [done|]. by intros [_ ?].
  - rewrite lookup_insert_ne by done.
    rewrite bool_decide_eq_false_2; [done|]. by intros [? _].
Qed.

(** One append: the bucket of the tag value grows by the path at its end,
    every other bucket stays, and no tag is added or removed. *)
Lemma appendTag_ok (tags : gmap string (gmap string (list Path)))
    (tag value : string) (path : Path) :
  tag ∈ dom tags →
  ∃ tags', appendTag tag value path tags = Ok tags'
    ∧ dom tags' = dom tags
    ∧ ∀ t v, bucket tags' t v
             = bucket tags t v
               ++ (if bool_decide (t = tag ∧ v = value) then [path] else []).
Proof.
  intros [byTag Htag]%elem_of_dom. unfold appendTag. rewrite Htag.
  eexists. split; [done|]. split.
  - rewrite dom_insert_L. apply elem_of_dom_2 in Htag. set_solver.
  - intros t v. rewrite (bucket_insert _ _ _ _ _ _ _ Htag).
    case_bool_decide as Htv; [|by rewrite app_nil_r].
    destruct Htv as [-> ->]. unfold bucket. by rewrite Htag.
Qed.

Lemma appendTag_missing (tags : gmap string (gmap string (list Path)))
    (tag value : string) (path : Path) :
  tag ∉ dom tags → appendTag tag value path tags = Panic PanicNilMap.
Proof.
  intros Htag%not_elem_of_dom. unfold appendTag. by rewrite Htag.
Qed.

Lemma appendTagM_ok (h : Handler) (tr : list string) (tag value : string)
    (path : Path) :
  tag ∈ dom (pathsByTag h) →
  ∃ tags', appendTagM tag value path h tr = (Ok tt, set_pathsByTag tags' h, tr)
    ∧ dom tags' = dom (pathsByTag h)
    ∧ ∀ t v, bucket tags' t v
             = bucket (pathsByTag h) t v
               ++ (if bool_decide (t = tag ∧ v = value) then [path] else []).
Proof.
  intros Htag.
  destruct (appendTag_ok _ tag value path Htag) as (tags' & Happ & Hdom & Hb).
  exists tags'. split; [|done].
  unfold appendTagM, getH, lift, modify. cbv [mbind M_mbind M_bind].
  by rewrite Happ.
Qed.

Lemma set_pathsByTag_id (h : Handler) : set_pathsByTag (pathsByTag h) h = h.
Proof. by destruct h. Qed.

Lemma set_pathsByTag_twice (h : Handler) tags1 tags2 :
  set_pathsByTag tags2 (set_pathsByTag tags1 h) = set_pathsByTag tags2 h.
Proof. done. Qed.

(** An append that is made only when the tag value is not empty. *)
Lemma appendTagM_when_ok (h : Handler) (tr : list string) (tag value : string)
    (path : Path) :
  tag ∈ dom (pathsByTag h) →
  ∃ tags',
    (if decide (0 < String.length value)%nat
     then appendTagM tag value path else mret tt) h tr
    = (Ok tt, set_pathsByTag tags' h, tr)
    ∧ dom tags' = dom (pathsByTag h)
    ∧ ∀ t v, bucket tags' t v
             = bucket (pathsByTag h) t v
               ++ (if bool_decide (t = tag ∧ v = value ∧ value ≠ "")
                   then [path] else []).
Proof.
  intros Htag. destruct (decide (0 < String.length value)%nat) as [Hlen|Hlen].
  - apply length_pos_nonempty in Hlen.
    destruct (appendTagM_ok h tr tag value path Htag) as (tags' & Hrun & Hdom & Hb).
    exists tags'. split; [done|]. split; [done|]. intros t v. rewrite Hb.
    by rewrite (bool_decide_ext (t = tag ∧ v = value)
                  (t = tag ∧ v = value ∧ value ≠ "")) by naive_solver.
  - rewrite length_pos_nonempty in Hlen. apply dec_stable in Hlen.
    exists (pathsByTag h). rewrite set_pathsByTag_id. split; [done|].
    split; [done|]. intros t v.
    rewrite bool_decide_eq_false_2 by naive_solver. by rewrite app_nil_r.
Qed.

Lemma M_bind_ok {A B} (m : M A) (f : A → M B) (h h' : Handler)
    (tr tr' : list string) (a : A) :
  m h tr = (Ok a, h', tr') → (m ≫= f) h tr = f a h' tr'.
Proof. intros Hm. unfold mbind, M_mbind, M_bind. by rewrite Hm. Qed.

Lemma M_bind_err {A B} (m : M A) (f : A → M B) (h h' : Handler)
    (tr tr' : list string) (e : error) :
  m h tr = (Err e, h', tr') → (m ≫= f) h tr = (Err e, h', tr').
Proof. intros Hm. unfold mbind, M_mbind, M_bind. by rewrite Hm. Qed.

Lemma M_bind_panic {A B} (m : M A) (f : A → M B) (h h' : Handler)
    (tr tr' : list string) (p : panic) :
  m h tr = (Panic p, h', tr') → (m ≫= f) h tr = (Panic p, h', tr').
Proof. intros Hm. unfold mbind, M_mbind, M_bind. by rewrite Hm. Qed.

Lemma recognizedTags_elems :
  DEX ∈ recognizedTags ∧ PREFERRED ∈ recognizedTags
  ∧ PROPERTIES ∈ recognizedTags ∧ STATUS ∈ recognizedTags.
Proof. unfold recognizedTags. set_solver. Qed.

Lemma tags_distinct :
  DEX ≠ PREFERRED ∧ DEX ≠ PROPERTIES ∧ DEX ≠ STATUS
  ∧ PREFERRED ≠ PROPERTIES ∧ PREFERRED ≠ STATUS ∧ PROPERTIES ≠ STATUS.
Proof. by repeat split. Qed.

Lemma one_if_ext (P Q : Prop) `{!Decision P, !Decision Q} (path : Path) :
  (P ↔ Q) →
  (if bool_decide P then [path] else []) = (if bool_decide Q then [path] else []).
Proof. intros HPQ. by rewrite (bool_decide_ext P Q HPQ). Qed.

Lemma one_if_false (P : Prop) `{!Decision P} (path : Path) :
  ¬ P → (if bool_decide P then [path] else []) = [].
Proof. intros HP. by rewrite bool_decide_eq_false_2. Qed.

(** The four appends of one channel, read as one append per bucket. *)
Lemma tagChannel_appends (path : Path) (channel : Channel) (t v : string) :
  (if bool_decide (t = DEX ∧ v = Dex (Tags channel) ∧ Dex (Tags channel) ≠ "")
   then [path] else [])
  ++ (if bool_decide (t = PREFERRED ∧ v = FormatBool (Preferred (Tags channel)))
      then [path] else [])
  ++ (if bool_decide (t = PROPERTIES ∧ v = Properties (Tags channel)
                      ∧ Properties (Tags channel) ≠ "")
      then [path] else [])
  ++ (if bool_decide (t = STATUS ∧ v = Status (Tags channel)
                      ∧ Status (Tags channel) ≠ "")
      then [path] else [])
  = (if bool_decide (tagValue t channel = Some v) then [path] else []).
Proof.
  destruct tags_distinct as (H1 & H2 & H3 & H4 & H5 & H6).
  unfold tagValue.
  destruct (decide (t = DEX)) as [->|HnD].
  { rewrite (one_if_false (DEX = PREFERRED ∧ _)) by (by intros [? _]).
    rewrite (one_if_false (DEX = PROPERTIES ∧ _)) by (by intros [? _]).
    rewrite (one_if_false (DEX = STATUS ∧ _)) by (by intros [? _]).
    rewrite !app_nil_r. apply one_if_ext. case_decide; naive_solver. }
  rewrite (one_if_false (t = DEX ∧ _)) by (by intros [? _]).
  destruct (decide (t = PREFERRED)) as [->|HnP].
  { rewrite (one_if_false (PREFERRED = PROPERTIES ∧ _)) by (by intros [? _]).
    rewrite (one_if_false (PREFERRED = STATUS ∧ _)) by (by intros [? _]).
    rewrite !app_nil_r. cbn [app]. apply one_if_ext. naive_solver. }
  rewrite (one_if_false (t = PREFERRED ∧ _)) by (by intros [? _]).
  destruct (decide (t = PROPERTIES)) as [->|HnR].
  { rewrite (one_if_false (PROPERTIES = STATUS ∧ _)) by (by intros [? _]).
    rewrite !app_nil_r. cbn [app]. apply one_if_ext. case_decide; naive_solver. }
  rewrite (one_if_false (t = PROPERTIES ∧ _)) by (by intros [? _]).
  cbn [app].
  destruct (decide (t = STATUS)) as [->|HnS].
  { apply one_if_ext. case_decide; naive_solver. }
  rewrite (one_if_false (t = STATUS ∧ _)) by (by intros [? _]).
  by rewrite bool_decide_eq_false_2.
Qed.

(** One pass of the loop body: each bucket grows by the path exactly when
    the channel qualifies for its tag under its value. *)
Lemma tagChannel_ok (path : Path) (channel : Channel) (h : Handler)
    (tr : list string) :
  tagsReady h →
  ∃ tags', tagChannel path channel h tr = (Ok tt, set_pathsByTag tags' h, tr)
    ∧ dom tags' = recognizedTags
    ∧ ∀ t v, bucket tags' t v
             = bucket (pathsByTag h) t v
               ++ (if bool_decide (tagValue t channel = Some v)
                   then [path] else []).
Proof.
  intros Hready. unfold tagsReady in Hready.
  destruct recognizedTags_elems as (Hdex & Hpref & Hprop & Hstat).
  destruct (appendTagM_when_ok h tr DEX (Dex (Tags channel)) path)
    as (t1 & R1 & D1 & B1); [by rewrite Hready|].
  destruct (appendTagM_ok (set_pathsByTag t1 h) tr PREFERRED
              (FormatBool (Preferred (Tags channel))) path)
    as (t2 & R2 & D2 & B2); [cbn; by rewrite D1, Hready|].
  destruct (appendTagM_when_ok (set_pathsByTag t2 h) tr PROPERTIES
              (Properties (Tags channel)) path)
    as (t3 & R3 & D3 & B3); [cbn in *; by rewrite D2, D1, Hready|].
  destruct (appendTagM_when_ok (set_pathsByTag t3 h) tr STATUS
              (Status (Tags channel)) path)
    as (t4 & R4 & D4 & B4); [cbn in *; by rewrite D3, D2, D1, Hready|].
  cbn in *. exists t4. split; [|split].
  - unfold tagChannel.
    rewrite (M_bind_ok _ _ _ _ _ _ _ R1), (M_bind_ok _ _ _ _ _ _ _ R2).
    rewrite (M_bind_ok _ _ _ _ _ _ _ R3). exact R4.
  - by rewrite D4, D3, D2, D1.
  - intros t v. rewrite B4, B3, B2, B1, <-!app_assoc. f_equal.
    apply tagChannel_appends.
Qed.

(** The whole loop over the channels of a path. *)
Lemma tagChannels_ok (path : Path) (channels : list Channel) (h : Handler)
    (tr : list string) :
  tagsReady h →
  ∃ tags',
    forM_ channels (tagChannel path) h tr = (Ok tt, set_pathsByTag tags' h, tr)
    ∧ dom tags' = recognizedTags
    ∧ ∀ t v, bucket tags' t v
             = bucket (pathsByTag h) t v
               ++ replicate
                    (countChannels (λ c, bool_decide (tagValue t c = Some v)) channels)
                    path.
Proof.
  revert h. induction channels as [|channel channels IH]; intros h Hready.
  - exists (pathsByTag h). rewrite set_pathsByTag_id. split; [done|].
    split; [done|]. intros t v. by rewrite app_nil_r.
  - destruct (tagChannel_ok path channel h tr Hready) as (t1 & R1 & D1 & B1).
    destruct (IH (set_pathsByTag t1 h) D1) as (t2 & R2 & D2 & B2).
    exists t2. split; [|split; [done|]].
    + cbn [forM_]. by rewrite (M_bind_ok _ _ _ _ _ _ _ R1).
    + intros t v. rewrite B2. cbn [pathsByTag set_pathsByTag]. rewrite B1.
      rewrite <-app_assoc. f_equal. unfold countChannels.
      rewrite filter_cons. destruct (bool_decide (tagValue t channel = Some v)).
      * by rewrite decide_True.
      * by rewrite decide_False.
Qed.

(** What [tagValue] says for each of the four tags. *)
Lemma tagValue_reading (channel : Channel) (v : string) :
  (tagValue PREFERRED channel = Some v
     ↔ v = FormatBool (Preferred (Tags channel)))
  ∧ (tagValue DEX channel = Some v ↔ v = Dex (Tags channel) ∧ v ≠ "")
  ∧ (tagValue PROPERTIES channel = Some v
       ↔ v = Properties (Tags channel) ∧ v ≠ "")
  ∧ (tagValue STATUS channel = Some v ↔ v = Status (Tags channel) ∧ v ≠ "").
Proof.
  unfold tagValue, DEX, PREFERRED, PROPERTIES, STATUS.
  repeat split; repeat case_decide; simplify_eq; naive_solver.
Qed.

(** C5. When [getPath] ingests a path document, it stores the path under its
    canonical name and then, channel by channel, appends the whole path to
    the bucket of each tag value the channel qualifies for: the [preferred]
    bucket of the string form of the flag always, the [dex], [properties] and
    [status] buckets of the channel's value exactly when that value is not
    empty.  Each bucket therefore grows by as many copies of the path as the
    path has channels qualifying for it; nothing is deduplicated. *)
Theorem getPath_tag_buckets (env : Env) (h : Handler) (tr : list string)
    (chain1Name chain2Name bodyBytes : string) (path : Path) :
  httpGet env (pathQuery h (getPathName chain1Name chain2Name))
    = Response StatusOK bodyBytes true →
  unmarshalPath env bodyBytes = Some path →
  tagsReady h →
  ∃ tags',
    getPath env chain1Name chain2Name h tr
    = (Ok tt,
       set_pathsByTag tags'
         (set_pathList (<[getPathName chain1Name chain2Name := path]> (pathList h)) h),
       tr ++ [pathQuery h (getPathName chain1Name chain2Name)])
    ∧ dom tags' = recognizedTags
    ∧ (∀ t v, bucket tags' t v
              = bucket (pathsByTag h) t v
                ++ replicate
                     (countChannels (λ c, bool_decide (tagValue t c = Some v))
                        (Channels path))
                     path)
    ∧ (∀ channel v,
         (tagValue PREFERRED channel = Some v
            ↔ v = FormatBool (Preferred (Tags channel)))
         ∧ (tagValue DEX channel = Some v ↔ v = Dex (Tags channel) ∧ v ≠ "")
         ∧ (tagValue PROPERTIES channel = Some v
              ↔ v = Properties (Tags channel) ∧ v ≠ "")
         ∧ (tagValue STATUS channel = Some v
              ↔ v = Status (Tags channel) ∧ v ≠ "")).
Proof.
  intros Hget Hjson Hready.
  set (name := getPathName chain1Name chain2Name) in *.
  set (h1 := set_pathList (<[name := path]> (pathList h)) h).
  destruct (tagChannels_ok path (Channels path) h1
              (tr ++ [pathQuery h name]) Hready) as (tags' & Hrun & Hdom & Hb).
  exists tags'. split; [|split; [done|split; [done|apply tagValue_reading]]].
  unfold getPath. fold name. unfold Get, getH, modify, throw.
  cbv [mbind M_mbind M_bind]. rewrite Hget. cbn. rewrite Hjson.
  exact Hrun.
Qed.

Lemma getPath_tag_buckets_witness :
  ∃ tags',
    getPath Scenario.env "osmo" "atom" (NewHandler Scenario.registry) []
    = (Ok tt,
       set_pathsByTag tags'
         (set_pathList (<[getPathName "osmo" "atom" := Scenario.atomOsmoPath]> ∅)
            (NewHandler Scenario.registry)),
       [pathQuery (NewHandler Scenario.registry) (getPathName "osmo" "atom")])
    ∧ bucket tags' DEX "osmosis" = [Scenario.atomOsmoPath; Scenario.atomOsmoPath]
    ∧ bucket tags' PREFERRED "true" = [Scenario.atomOsmoPath]
    ∧ bucket tags' PREFERRED "false" = [Scenario.atomOsmoPath]
    ∧ bucket tags' STATUS "live" = [Scenario.atomOsmoPath]
    ∧ bucket tags' PROPERTIES "" = [].
Proof.
  destruct (getPath_tag_buckets Scenario.env (NewHandler Scenario.registry) []
              "osmo" "atom" "atom-osmo" Scenario.atomOsmoPath)
    as (tags' & Hrun & _ & Hb & _).
  - reflexivity.
  - reflexivity.
  - apply NewHandler_tagsReady.
  - exists tags'. split; [exact Hrun|].
    rewrite !Hb. repeat split; reflexivity.
Defined.

(** ** The synchronisation pass *)

Lemma docFrame_refl (h : Handler) : docFrame h h.
Proof. by repeat split. Qed.

Lemma docFrame_trans (h1 h2 h3 : Handler) :
  docFrame h1 h2 → docFrame h2 h3 → docFrame h1 h3.
Proof.
  unfold docFrame. intros (?&?&?&?&?&?&?) (?&?&?&?&?&?&?).
  repeat split; congruence.
Qed.

Lemma docFrame_tagsReady (h h' : Handler) :
  docFrame h h' → tagsReady h → tagsReady h'.
Proof. unfold docFrame, tagsReady. intros (_&_&_&_&_&_&Hdom). congruence. Qed.

Lemma docFrame_queries (h h' : Handler) :
  docFrame h h' →
  (∀ name, chainQuery h' name = chainQuery h name)
  ∧ (∀ name, assetListQuery h' name = assetListQuery h name)
  ∧ (∀ path, pathQueryOf h' path = pathQueryOf h path).
Proof.
  intros (Hurl & _).
  unfold chainQuery, assetListQuery, pathQueryOf, pathQuery.
  by rewrite Hurl.
Qed.

Ltac run_fetch :=
  unfold Get, getH, modify, throw;
  cbv [mbind M_mbind M_bind mret M_mret M_ret].

(** The goal of an outcome lemma when the fetch ended in an error, or in a
    tolerated absence, without touching the handler. *)
Ltac open_outcome :=
  repeat (lazymatch goal with |- ∃ _, _ => eexists end);
  split; [reflexivity|]; split; [apply docFrame_refl|]; split.
Ltac fetch_error :=
  open_outcome;
  [right; eexists; reflexivity
  |intros _; split; [reflexivity|eexists; reflexivity]].
Ltac fetch_absent :=
  open_outcome; [by left|by intros [? _]].

(** The fetch of a chain document never panics, touches only [chainList]
    and [chainById], and returns an error when the fetch fails, leaving the
    handler as it found it. *)
Lemma getChain_outcome (env : Env) (name : string) (h : Handler) (tr : list string) :
  ∃ r h', getChain env name h tr = (r, h', tr ++ [chainQuery h name])
    ∧ docFrame h h'
    ∧ (r = Ok tt ∨ ∃ e, r = Err e)
    ∧ (fetchFails (unmarshalChain env) (httpGet env (chainQuery h name)) →
       h' = h ∧ ∃ e, r = Err e).
Proof.
  unfold getChain. run_fetch.
  destruct (httpGet env (chainQuery h name)) as [|code bodyBytes readOk]; cbn.
  { fetch_error. }
  destruct (decide (code = StatusNotFound)) as [->|Hnf].
  { fetch_absent. }
  destruct (decide (code ≠ StatusOK)) as [Hok|Hok].
  { fetch_error. }
  destruct readOk; cbn.
  2:{ fetch_error. }
  destruct (unmarshalChain env bodyBytes) as [chain|] eqn:Hjson.
  - eexists _, _. split; [done|]. split; [by repeat split|].
    split; [by left|]. intros [_ [Hne|Hnone]]; [done|discriminate].
  - fetch_error.
Qed.

Lemma getAssetList_outcome (env : Env) (name : string) (h : Handler)
    (tr : list string) :
  ∃ r h', getAssetList env name h tr = (r, h', tr ++ [assetListQuery h name])
    ∧ docFrame h h'
    ∧ (r = Ok tt ∨ ∃ e, r = Err e)
    ∧ (fetchFails (unmarshalAssetList env) (httpGet env (assetListQuery h name)) →
       h' = h ∧ ∃ e, r = Err e).
Proof.
  unfold getAssetList. run_fetch.
  destruct (httpGet env (assetListQuery h name)) as [|code bodyBytes readOk]; cbn.
  { fetch_error. }
  destruct (decide (code = StatusNotFound)) as [->|Hnf].
  { fetch_absent. }
  destruct (decide (code ≠ StatusOK)) as [Hok|Hok].
  { fetch_error. }
  destruct readOk; cbn.
  2:{ fetch_error. }
  destruct (unmarshalAssetList env bodyBytes) as [assets|] eqn:Hjson.
  - eexists _, _. split; [done|]. split; [by repeat split|].
    split; [by left|]. intros [_ [Hne|Hnone]]; [done|discriminate].
  - fetch_error.
Qed.

(** The fetch of a path document, on a handler whose tag index is ready. *)
Lemma getPath_outcome (env : Env) (chain1Name chain2Name : string)
    (h : Handler) (tr : list string) :
  tagsReady h →
  ∃ r h' tr', getPath env chain1Name chain2Name h tr = (r, h', tr')
    ∧ docFrame h h'
    ∧ (r = Ok tt ∨ ∃ e, r = Err e)
    ∧ (fetchFails (unmarshalPath env)
         (httpGet env (pathQuery h (getPathName chain1Name chain2Name))) →
       h' = h ∧ ∃ e, r = Err e).
Proof.
  intros Hready. unfold getPath. run_fetch.
  set (name := getPathName chain1Name chain2Name).
  destruct (httpGet env (pathQuery h name)) as [|code bodyBytes readOk]; cbn.
  { fetch_error. }
  destruct (decide (code = StatusNotFound)) as [->|Hnf].
  { fetch_absent. }
  destruct (decide (code ≠ StatusOK)) as [Hok|Hok].
  { fetch_error. }
  destruct readOk; cbn.
  2:{ fetch_error. }
  destruct (unmarshalPath env bodyBytes) as [path|] eqn:Hjson.
  - destruct (tagChannels_ok path (Channels path)
                (set_pathList (<[name := path]> (pathList h)) h)
                (tr ++ [pathQuery h name]) Hready) as (tags' & Hrun & Hdom & _).
    rewrite Hrun. eexists _, _, _. split; [done|]. split.
    { repeat split; cbn; try done. by rewrite Hdom, Hready. }
    split; [by left|]. intros [_ [Hne|Hnone]]; [done|discriminate].
  - fetch_error.
Qed.

Lemma pullChain_outcome (env : Env) (chain : string) (h : Handler)
    (tr : list string) :
  ∃ r h' tr', pullChain env chain h tr = (r, h', tr')
    ∧ docFrame h h'
    ∧ (r = Ok tt ∨ ∃ e, r = Err e)
    ∧ (fetchFails (unmarshalChain env) (httpGet env (chainQuery h chain))
       ∨ fetchFails (unmarshalAssetList env) (httpGet env (assetListQuery h chain)) →
       ∃ e, r = Err e).
Proof.
  unfold pullChain.
  destruct (getChain_outcome env chain h tr) as (r1 & h1 & R1 & F1 & O1 & E1).
  destruct O1 as [->|[e ->]].
  - rewrite (M_bind_ok _ _ _ _ _ _ _ R1).
    destruct (getAssetList_outcome env chain h1 (tr ++ [chainQuery h chain]))
      as (r2 & h2 & R2 & F2 & O2 & E2).
    eexists _, _, _. split; [exact R2|].
    split; [by eapply docFrame_trans|]. split; [done|].
    intros [Hfail|Hfail].
    + by destruct (E1 Hfail) as [_ [e ?]].
    + destruct (docFrame_queries h h1 F1) as (_ & Hq & _).
      rewrite Hq in E2. by destruct (E2 Hfail) as [_ ?].
  - rewrite (M_bind_err _ _ _ _ _ _ _ R1).
    eexists _, _, _. split; [done|]. split; [done|]. eauto.
Qed.

(** The loop over the chains: it never panics, and it returns an error when
    the chain document or the asset list of some chain fails. *)
Lemma pullChains_outcome (env : Env) (cs : list string) (h : Handler)
    (tr : list string) :
  ∃ r h' tr', forM_ cs (pullChain env) h tr = (r, h', tr')
    ∧ docFrame h h'
    ∧ (r = Ok tt ∨ ∃ e, r = Err e)
    ∧ ((∃ chain, chain ∈ cs
          ∧ (fetchFails (unmarshalChain env) (httpGet env (chainQuery h chain))
             ∨ fetchFails (unmarshalAssetList env)
                 (httpGet env (assetListQuery h chain)))) →
       ∃ e, r = Err e).
Proof.
  revert h tr. induction cs as [|c cs IH]; intros h tr.
  - eexists _, _, _. split; [done|]. split; [apply docFrame_refl|].
    split; [by left|]. intros (chain & Hin & _). by apply elem_of_nil in Hin.
  - cbn [forM_].
    destruct (pullChain_outcome env c h tr) as (r1 & h1 & tr1 & R1 & F1 & O1 & E1).
    destruct O1 as [->|[e ->]].
    + rewrite (M_bind_ok _ _ _ _ _ _ _ R1).
      destruct (IH h1 tr1) as (r2 & h2 & tr2 & R2 & F2 & O2 & E2).
      eexists _, _, _. split; [exact R2|].
      split; [by eapply docFrame_trans|]. split; [done|].
      intros (chain & Hin & Hfail). apply elem_of_cons in Hin as [->|Hin].
      * by destruct (E1 Hfail).
      * apply E2. exists chain. split; [done|].
        destruct (docFrame_queries h h1 F1) as (Hq1 & Hq2 & _).
        by rewrite Hq1, Hq2.
    + rewrite (M_bind_err _ _ _ _ _ _ _ R1).
      eexists _, _, _. split; [done|]. split; [done|]. eauto.
Qed.

Lemma index_Split_pathChains (path : string) :
  (2 ≤ length (GoStrings.Split path "-"))%nat →
  index (GoStrings.Split path "-") 0 = Ok (pathChains path).1
  ∧ index (GoStrings.Split path "-") 1 = Ok (pathChains path).2.
Proof.
  unfold pathChains, index.
  destruct (GoStrings.Split path "-") as [|a [|b l]]; cbn; [lia|lia|done].
Qed.


(** The three requests that open a pass. *)
Lemma recentCommits_ok (env : Env) (h : Handler) (tr : list string)
    (bodyBytes : string) (readOk : bool) (body : list json) :
  httpGet env (commitsQuery env h) = Response StatusOK bodyBytes readOk →
  unmarshalList env bodyBytes = Some body →
  recentCommits env h tr
  = (Ok (bool_decide (0 < length body)%nat), h, tr ++ [commitsQuery env h]).
Proof.
  intros Hget Hjson. unfold recentCommits. run_fetch.
  by rewrite Hget, decide_False, Hjson by (by intros ?).
Qed.

Lemma getChains_ok (env : Env) (h : Handler) (tr : list string)
    (bodyBytes : string) (repo : list (gmap string json)) (cs : list string) :
  httpGet env (chainsQuery h) = Response StatusOK bodyBytes true →
  unmarshalRepo env bodyBytes = Some repo →
  scanChainEntries repo [] = Ok cs →
  getChains env h tr = (Ok tt, set_chains cs h, tr ++ [chainsQuery h]).
Proof.
  intros Hget Hjson Hscan. unfold getChains, lift. run_fetch.
  rewrite Hget, decide_False by (by intros ?). cbn. by rewrite Hjson, Hscan.
Qed.

Lemma getPaths_ok (env : Env) (h : Handler) (tr : list string)
    (bodyBytes : string) (repo : list (gmap string json)) (ps : list string) :
  httpGet env (pathsQuery h) = Response StatusOK bodyBytes true →
  unmarshalRepo env bodyBytes = Some repo →
  scanPathEntries repo [] = Ok ps →
  getPaths env h tr = (Ok tt, set_paths ps h, tr ++ [pathsQuery h]).
Proof.
  intros Hget Hjson Hscan. unfold getPaths, lift. run_fetch.
  rewrite Hget, decide_False by (by intros ?). cbn. by rewrite Hjson, Hscan.
Qed.

(** C8. When the commit-history query is answered with an empty list, [Pull]
    makes that one request and no other, returns without error, and leaves
    every field of the handler as it was except [lastUpdated], which becomes
    the time of the attempt. *)
Theorem Pull_no_recent_commits (env : Env) (h : Handler) (tr : list string)
    (bodyBytes : string) (readOk : bool) :
  httpGet env (commitsQuery env h) = Response StatusOK bodyBytes readOk →
  unmarshalList env bodyBytes = Some [] →
  Pull env h tr
  = (Ok tt, set_lastUpdated (timeNow env) h, tr ++ [commitsQuery env h])
  ∧ set_lastUpdated (timeNow env) h
    = {| registryUrl := registryUrl h; lastUpdated := timeNow env;
         chains := chains h; assets := assets h; paths := paths h;
         chainByAsset := chainByAsset h; chainById := chainById h;
         pathsByTag := pathsByTag h; chainList := chainList h;
         assetList := assetList h; pathList := pathList h |}.
Proof.
  intros Hget Hjson. split; [|done]. unfold Pull.
  by rewrite (M_bind_ok _ _ _ _ _ _ _
                (recentCommits_ok env h tr bodyBytes readOk [] Hget Hjson)).
Qed.

Lemma Pull_no_recent_commits_witness :
  Pull Scenario.quietEnv (NewHandler Scenario.registry) []
  = (Ok tt, set_lastUpdated 1700000000 (NewHandler Scenario.registry),
     [commitsQuery Scenario.quietEnv (NewHandler Scenario.registry)]).
Proof.
  apply (Pull_no_recent_commits Scenario.quietEnv (NewHandler Scenario.registry)
           [] "commits" true); reflexivity.
Defined.

(** The pass from the chain loop on, once both discoveries have succeeded. *)
Lemma Pull_from_discovery (env : Env) (h : Handler) (tr : list string)
    (b0 b1 b2 : string) (rd : bool) (commits : list json)
    (repo1 repo2 : list (gmap string json)) (cs ps : list string) :
  httpGet env (commitsQuery env h) = Response StatusOK b0 rd →
  unmarshalList env b0 = Some commits →
  commits ≠ [] →
  httpGet env (chainsQuery h) = Response StatusOK b1 true →
  unmarshalRepo env b1 = Some repo1 →
  scanChainEntries repo1 [] = Ok cs →
  httpGet env (pathsQuery h) = Response StatusOK b2 true →
  unmarshalRepo env b2 = Some repo2 →
  scanPathEntries repo2 [] = Ok ps →
  Pull env h tr
  = (forM_ cs (pullChain env) ;;
     h ← getH;
     forM_ (paths h) (pullPath env) ;;
     modify (λ h, set_chainByAsset (indexAssets h) h) ;;
     modify (set_lastUpdated (timeNow env)))
      (set_paths ps (set_chains cs h))
      (tr ++ [commitsQuery env h] ++ [chainsQuery h] ++ [pathsQuery h]).
Proof.
  intros Hget0 Hjson0 Hne Hget1 Hjson1 Hscan1 Hget2 Hjson2 Hscan2. unfold Pull.
  rewrite (M_bind_ok _ _ _ _ _ _ _
             (recentCommits_ok env h tr b0 rd commits Hget0 Hjson0)).
  rewrite bool_decide_eq_true_2 by (destruct commits; [done|cbn; lia]).
  cbn [negb].
  rewrite (M_bind_ok _ _ _ _ _ _ _
             (getChains_ok env h _ b1 repo1 cs Hget1 Hjson1 Hscan1)).
  rewrite (M_bind_ok _ _ _ _ _ _ _
             (getPaths_ok env (set_chains cs h) _ b2 repo2 ps Hget2 Hjson2 Hscan2)).
  rewrite <-!app_assoc.
  unfold getH at 1. cbv [mbind M_mbind M_bind]. done.
Qed.

(** ** What every pass keeps *)

Section Preservation.

Context (R : Handler → Handler → Prop) `{!PreOrder R}.

Lemma preserves_ret {A} (a : A) : preserves R (mret a : M A).
Proof. intros h tr. reflexivity. Qed.

Lemma preserves_getH : preserves R getH.
Proof. intros h tr. reflexivity. Qed.

Lemma preserves_throw {A} (e : error) : preserves R (throw e : M A).
Proof. intros h tr. reflexivity. Qed.

Lemma preserves_raise {A} (p : panic) : preserves R (raise p : M A).
Proof. intros h tr. reflexivity. Qed.

Lemma preserves_lift {A} (r : result A) : preserves R (lift r).
Proof. intros h tr. reflexivity. Qed.

Lemma preserves_Get (env : Env) (query : string) : preserves R (Get env query).
Proof. intros h tr. reflexivity. Qed.

Lemma preserves_modify (f : Handler → Handler) :
  (∀ h, R h (f h)) → preserves R (modify f).
Proof. intros Hf h tr. apply Hf. Qed.

Lemma preserves_bind {A B} (m : M A) (f : A → M B) :
  preserves R m → (∀ a, preserves R (f a)) → preserves R (m ≫= f).
Proof.
  intros Hm Hf h tr. specialize (Hm h tr).
  unfold mbind, M_mbind, M_bind.
  destruct (m h tr) as [[[a|e|p] h1] tr1]; cbn in *; [|done..].
  etrans; [exact Hm|apply Hf].
Qed.

Lemma preserves_forM {A} (l : list A) (body : A → M unit) :
  (∀ x, preserves R (body x)) → preserves R (forM_ l body).
Proof.
  intros Hbody. induction l as [|x l IH]; cbn [forM_].
  - apply preserves_ret.
  - apply preserves_bind; [apply Hbody|]. intros _. apply IH.
Qed.

(** A bind completes only if its first computation does. *)
Lemma keepsOnFailure_bind {A B} (m : M A) (f : A → M B) :
  preserves R m → (∀ a, keepsOnFailure R (f a)) → keepsOnFailure R (m ≫= f).
Proof.
  intros Hm Hf h tr. specialize (Hm h tr).
  unfold mbind, M_mbind, M_bind.
  destruct (m h tr) as [[[a|e|p] h1] tr1]; cbn in *; [|done..].
  intros Hfail. etrans; [exact Hm|by apply Hf].
Qed.

Lemma keepsOnFailure_modify (f : Handler → Handler) :
  keepsOnFailure R (modify f).
Proof. intros h tr Hfail. by destruct (Hfail tt). Qed.

(** The steps by which the pass writes the handler. *)
Hypothesis R_chains : ∀ cs h, R h (set_chains cs h).
Hypothesis R_paths : ∀ ps h, R h (set_paths ps h).
Hypothesis R_chainList :
  ∀ name chain h, R h (set_chainList (<[name := chain]> (chainList h)) h).
Hypothesis R_chainById :
  ∀ id name h, is_Some (chainList h !! name) →
    R h (set_chainById (<[id := name]> (chainById h)) h).
Hypothesis R_assetList :
  ∀ name al h, R h (set_assetList (<[name := al]> (assetList h)) h).
Hypothesis R_pathList :
  ∀ name path h, R h (set_pathList (<[name := path]> (pathList h)) h).
Hypothesis R_appendTag :
  ∀ tag value path h tags,
    appendTag tag value path (pathsByTag h) = Ok tags →
    R h (set_pathsByTag tags h).

Variable env : Env.

Lemma preserves_recentCommits : preserves R (recentCommits env).
Proof.
  intros h tr. unfold recentCommits, Get, getH, throw.
  cbv [mbind M_mbind M_bind mret M_mret M_ret].
  destruct (httpGet env (commitsQuery env h)) as [|code bodyBytes rd]; cbn;
    [reflexivity|].
  case_decide; cbn; [reflexivity|].
  destruct (unmarshalList env bodyBytes); reflexivity.
Qed.

Lemma preserves_getChains : preserves R (getChains env).
Proof.
  intros h tr. unfold getChains, Get, getH, throw, lift, modify.
  cbv [mbind M_mbind M_bind mret M_mret M_ret].
  destruct (httpGet env (chainsQuery h)) as [|code bodyBytes rd]; cbn;
    [reflexivity|].
  case_decide; cbn; [reflexivity|]. destruct rd; cbn; [|reflexivity].
  destruct (unmarshalRepo env bodyBytes) as [repo|]; cbn; [|reflexivity].
  destruct (scanChainEntries repo []); cbn; [apply R_chains|reflexivity..].
Qed.

Lemma preserves_getPaths : preserves R (getPaths env).
Proof.
  intros h tr. unfold getPaths, Get, getH, throw, lift, modify.
  cbv [mbind M_mbind M_bind mret M_mret M_ret].
  destruct (httpGet env (pathsQuery h)) as [|code bodyBytes rd]; cbn;
    [reflexivity|].
  case_decide; cbn; [reflexivity|]. destruct rd; cbn; [|reflexivity].
  destruct (unmarshalRepo env bodyBytes) as [repo|]; cbn; [|reflexivity].
  destruct (scanPathEntries repo []); cbn; [apply R_paths|reflexivity..].
Qed.

Lemma preserves_getChain (name : string) : preserves R (getChain env name).
Proof.
  intros h tr. unfold getChain, Get, getH, throw, modify.
  cbv [mbind M_mbind M_bind mret M_mret M_ret].
  destruct (httpGet env (chainQuery h name)) as [|code bodyBytes rd]; cbn;
    [reflexivity|].
  case_decide; cbn; [reflexivity|]. case_decide; cbn; [reflexivity|].
  destruct rd; cbn; [|reflexivity].
  destruct (unmarshalChain env bodyBytes) as [chain|]; cbn; [|reflexivity].
  transitivity (set_chainList (<[name := chain]> (chainList h)) h).
  { apply R_chainList. }
  apply (R_chainById (ChainID chain) name
           (set_chainList (<[name := chain]> (chainList h)) h)).
  cbn. rewrite lookup_insert_eq. by eexists.
Qed.

Lemma preserves_getAssetList (name : string) : preserves R (getAssetList env name).
Proof.
  intros h tr. unfold getAssetList, Get, getH, throw, modify.
  cbv [mbind M_mbind M_bind mret M_mret M_ret].
  destruct (httpGet env (assetListQuery h name)) as [|code bodyBytes rd]; cbn;
    [reflexivity|].
  case_decide; cbn; [reflexivity|]. case_decide; cbn; [reflexivity|].
  destruct rd; cbn; [|reflexivity].
  destruct (unmarshalAssetList env bodyBytes) as [al|]; cbn; [|reflexivity].
  apply R_assetList.
Qed.

Lemma preserves_appendTagM (tag value : string) (path : Path) :
  preserves R (appendTagM tag value path).
Proof.
  intros h tr. unfold appendTagM, getH, lift, modify.
  cbv [mbind M_mbind M_bind].
  destruct (appendTag tag value path (pathsByTag h)) as [tags| |] eqn:Happ; cbn;
    [by apply (R_appendTag tag value path)|reflexivity..].
Qed.

Lemma preserves_tagChannel (path : Path) (channel : Channel) :
  preserves R (tagChannel path channel).
Proof.
  unfold tagChannel.
  repeat (apply preserves_bind; [|intros _]);
    try case_decide; auto using preserves_appendTagM, preserves_ret.
Qed.

Lemma preserves_getPath (chain1Name chain2Name : string) :
  preserves R (getPath env chain1Name chain2Name).
Proof.
  unfold getPath. apply preserves_bind; [apply preserves_getH|]. intros h0.
  apply preserves_bind; [apply preserves_Get|]. intros [|code bodyBytes rd].
  { apply preserves_throw. }
  case_decide; [apply preserves_ret|]. case_decide; [apply preserves_throw|].
  destruct rd; cbn [negb]; [|apply preserves_throw].
  destruct (unmarshalPath env bodyBytes) as [path|]; [|apply preserves_throw].
  apply preserves_bind; [apply preserves_modify, R_pathList|]. intros _.
  apply preserves_forM. intros channel. apply preserves_tagChannel.
Qed.

Lemma preserves_pullChain (chain : string) : preserves R (pullChain env chain).
Proof.
  apply preserves_bind; [apply preserves_getChain|]. intros _.
  apply preserves_getAssetList.
Qed.

Lemma preserves_pullPath (path : string) : preserves R (pullPath env path).
Proof.
  unfold pullPath. apply preserves_bind; [apply preserves_lift|]. intros c1.
  apply preserves_bind; [apply preserves_lift|]. intros c2.
  apply preserves_getPath.
Qed.

(** [Pull] is the opening of the pass followed by its closing writes. *)
Lemma Pull_unfold :
  Pull env
  = (recent ← recentCommits env;
     if negb recent then modify (set_lastUpdated (timeNow env)) else
     getChains env ;;
     getPaths env ;;
     h ← getH;
     forM_ (chains h) (pullChain env) ;;
     h ← getH;
     forM_ (paths h) (pullPath env) ;;
     modify (λ h, set_chainByAsset (indexAssets h) h) ;;
     modify (set_lastUpdated (timeNow env))).
Proof. reflexivity. Qed.

(** A relation kept by every write of the pass but the two closing ones is
    kept by every pass that ends in an error or a panic. *)
Lemma Pull_keepsOnFailure : keepsOnFailure R (Pull env).
Proof.
  rewrite Pull_unfold.
  apply keepsOnFailure_bind; [apply preserves_recentCommits|]. intros recent.
  destruct recent; cbn [negb]; [|apply keepsOnFailure_modify].
  apply keepsOnFailure_bind; [apply preserves_getChains|]. intros _.
  apply keepsOnFailure_bind; [apply preserves_getPaths|]. intros _.
  apply keepsOnFailure_bind; [apply preserves_getH|]. intros h1.
  apply keepsOnFailure_bind;
    [apply preserves_forM; intros c; apply preserves_pullChain|]. intros _.
  apply keepsOnFailure_bind; [apply preserves_getH|]. intros h2.
  apply keepsOnFailure_bind;
    [apply preserves_forM; intros p; apply preserves_pullPath|]. intros _.
  intros h tr Hfail. by destruct (Hfail tt).
Qed.

(** With the two closing writes as well, the relation is kept by every
    pass. *)
Hypothesis R_chainByAsset : ∀ h, R h (set_chainByAsset (indexAssets h) h).
Hypothesis R_lastUpdated : ∀ t h, R h (set_lastUpdated t h).

Lemma Pull_preserves : preserves R (Pull env).
Proof.
  rewrite Pull_unfold.
  apply preserves_bind; [apply preserves_recentCommits|]. intros recent.
  destruct recent; cbn [negb]; [|apply preserves_modify, R_lastUpdated].
  apply preserves_bind; [apply preserves_getChains|]. intros _.
  apply preserves_bind; [apply preserves_getPaths|]. intros _.
  apply preserves_bind; [apply preserves_getH|]. intros h1.
  apply preserves_bind;
    [apply preserves_forM; intros c; apply preserves_pullChain|]. intros _.
  apply preserves_bind; [apply preserves_getH|]. intros h2.
  apply preserves_bind;
    [apply preserves_forM; intros p; apply preserves_pullPath|]. intros _.
  apply preserves_bind; [apply preserves_modify, R_chainByAsset|]. intros _.
  apply preserves_modify, R_lastUpdated.
Qed.

End Preservation.

#[local] Instance unpublished_preorder : PreOrder unpublished.
Proof.
  split.
  - by intros h.
  - intros h1 h2 h3 [? ?] [? ?]. split; congruence.
Qed.

(** X7. A pass that does not return [nil] (it returns an error, or it panics)
    publishes nothing: the timestamp of the last update and the index of the
    chains by asset are the ones it started from. *)
Theorem Pull_failure_publishes_nothing (env : Env) (h h' : Handler)
    (tr tr' : list string) (r : result unit) :
  Pull env h tr = (r, h', tr') →
  r ≠ Ok tt →
  lastUpdated h' = lastUpdated h ∧ chainByAsset h' = chainByAsset h.
Proof.
  intros Hrun Hfail.
  pose proof (Pull_keepsOnFailure unpublished) as Hkeep.
  unfold keepsOnFailure in Hkeep. specialize (Hkeep
    ltac:(done) ltac:(done) ltac:(done) ltac:(done) ltac:(done) ltac:(done)
    ltac:(done) env h tr).
  rewrite Hrun in Hkeep. apply Hkeep. intros []. exact Hfail.
Qed.

Lemma Pull_failure_publishes_nothing_witness :
  ∃ r h' tr',
    Pull Scenario.brokenPathEnv (NewHandler Scenario.registry) [] = (r, h', tr')
    ∧ r ≠ Ok tt
    ∧ lastUpdated h' = 0 ∧ chainByAsset h' = ∅.
Proof.
  eexists _, _, _. split; [vm_compute; reflexivity|].
  split; [discriminate|].
  refine (Pull_failure_publishes_nothing Scenario.brokenPathEnv
            (NewHandler Scenario.registry) _ [] _ _ _ _).
  - vm_compute. reflexivity.
  - discriminate.
Defined.

#[local] Instance grows_preorder : PreOrder grows.
Proof.
  split.
  - intros h. by repeat split.
  - intros h1 h2 h3 (?&?&?&?&?&?&?&?&Hb1) (?&?&?&?&?&?&?&?&Hb2).
    repeat split; try congruence; try (etrans; eassumption).
    intros t v. etrans; [apply Hb1|apply Hb2].
Qed.

Lemma grows_appendTag (tag value : string) (path : Path) (h : Handler)
    (tags : gmap string (gmap string (list Path))) :
  appendTag tag value path (pathsByTag h) = Ok tags →
  grows h (set_pathsByTag tags h).
Proof.
  intros Happ.
  destruct (decide (tag ∈ dom (pathsByTag h))) as [Hin|Hout].
  - destruct (appendTag_ok _ tag value path Hin) as (tags' & Happ' & Hdom & Hb).
    rewrite Happ in Happ'. injection Happ' as <-.
    repeat split; try done. intros t v. cbn. rewrite Hb. by apply prefix_app_r.
  - rewrite (appendTag_missing _ _ _ _ Hout) in Happ. discriminate Happ.
Qed.

Lemma Pull_grows (env : Env) (h : Handler) (tr : list string) :
  grows h (Pull env h tr).1.2.
Proof.
  apply (Pull_preserves grows); try (intros; by repeat split).
  - intros name chain h0. repeat split; try done. cbn.
    rewrite dom_insert_L. set_solver.
  - intros id name h0 _. repeat split; try done. cbn.
    rewrite dom_insert_L. set_solver.
  - intros name al h0. repeat split; try done. cbn.
    rewrite dom_insert_L. set_solver.
  - intros name path h0. repeat split; try done. cbn.
    rewrite dom_insert_L. set_solver.
  - apply grows_appendTag.
  - intros h0. repeat split; try done. cbn. unfold indexAssets.
    enough (Hfold : ∀ (l : list (string * AssetList)) (m : gmap string string),
              dom m ⊆ dom (foldl (λ byAsset entry,
                let name := default "" (chainById h0 !! AssetsChainID entry.2) in
                foldl (λ byAsset asset, <[Display asset := name]> byAsset)
                      byAsset (Assets entry.2)) m l)) by apply Hfold.
    induction l as [|entry l IH]; intros m; cbn [foldl]; [done|].
    etrans; [|apply IH].
    generalize (default "" (chainById h0 !! AssetsChainID entry.2)). intros name.
    generalize (Assets entry.2). intros al. revert m.
    induction al as [|a al IHal]; intros m; cbn [foldl]; [done|].
    etrans; [|apply IHal]. rewrite dom_insert_L. set_solver.
Qed.

(** X8. No pass, whatever its outcome, takes anything away: the registry URL,
    the asset name list and the set of tags are unchanged, every map keeps
    all its keys (a chain, asset list or path that has left the registry
    stays served), and every tag bucket keeps its elements, in order, at its
    front (buckets are never reset between passes). *)
Theorem Pull_never_takes_away (env : Env) (h h' : Handler)
    (tr tr' : list string) (r : result unit) :
  Pull env h tr = (r, h', tr') →
  registryUrl h' = registryUrl h
  ∧ assets h' = assets h
  ∧ dom (pathsByTag h') = dom (pathsByTag h)
  ∧ dom (chainList h) ⊆ dom (chainList h')
  ∧ dom (chainById h) ⊆ dom (chainById h')
  ∧ dom (assetList h) ⊆ dom (assetList h')
  ∧ dom (pathList h) ⊆ dom (pathList h')
  ∧ dom (chainByAsset h) ⊆ dom (chainByAsset h')
  ∧ ∀ t v, bucket (pathsByTag h) t v `prefix_of` bucket (pathsByTag h') t v.
Proof.
  intros Hrun. pose proof (Pull_grows env h tr) as Hgrows.
  by rewrite Hrun in Hgrows.
Qed.

Lemma Pull_never_takes_away_witness :
  ∃ h',
    (Pull Scenario.healthyEnv Scenario.stocked []).1.2 = h'
    ∧ dom (chainList Scenario.stocked) ⊆ dom (chainList h')
    ∧ dom (assetList Scenario.stocked) ⊆ dom (assetList h')
    ∧ dom (chainByAsset Scenario.stocked) ⊆ dom (chainByAsset h').
Proof.
  eexists. split; [reflexivity|].
  destruct (Pull Scenario.healthyEnv Scenario.stocked []) as [[r h'] tr'] eqn:Hrun.
  destruct (Pull_never_takes_away Scenario.healthyEnv Scenario.stocked h' [] tr' r
              Hrun) as (_ & _ & _ & Hc & _ & Ha & _ & Hb & _).
  done.
Defined.

(** ** The handlers a server can hold *)

Lemma reachable_grows_from_new (h : Handler) :
  reachable h → ∃ url, grows (NewHandler url) h.
Proof.
  induction 1 as [url|env h tr _ [url IH]].
  - exists url. reflexivity.
  - exists url. etrans; [exact IH|apply Pull_grows].
Qed.

(** On every reachable handler the tag index holds an inner map for exactly
    the four recognized tags. *)
Lemma reachable_tagsReady (h : Handler) : reachable h → tagsReady h.
Proof.
  intros [url (_ & _ & Hdom & _)]%reachable_grows_from_new.
  unfold tagsReady. rewrite Hdom. apply NewHandler_tagsReady.
Qed.

(** X9. The filtered route never reaches the panic of [getPathsWithTag]: on a
    reachable handler it always responds, with status 200 and one list of
    paths, whatever the request variables. *)
Theorem PathsFiltered_never_panics (h : Handler) (vars : gmap string string) :
  reachable h →
  ∃ paths, Routes.PathsFiltered h vars newResponseWriter
           = Ok {| statusCode := Some StatusOK; written := [PPaths paths] |}.
Proof.
  intros Hready%reachable_tagsReady.
  assert (Hget : ∀ tag value, tag ∈ recognizedTags →
            ∃ paths, getPathsWithTag h tag value = Ok paths).
  { intros tag value [byTag Htag]%(tagsReady_lookup h tag Hready).
    unfold getPathsWithTag. case_decide; [by eexists|]. rewrite Htag.
    destruct (byTag !! value); by eexists. }
  destruct recognizedTags_elems as (Hdex & Hpref & Hprop & Hstat).
  unfold Routes.PathsFiltered.
  destruct (vars !! "dex") as [dex|].
  { destruct (Hget "dex" dex Hdex) as [paths ->]. by exists paths. }
  destruct (vars !! "preferred") as [preferred|].
  { destruct (Hget "preferred" preferred Hpref) as [paths ->]. by exists paths. }
  destruct (vars !! "properties") as [properties|].
  { destruct (Hget "properties" properties Hprop) as [paths ->]. by exists paths. }
  destruct (vars !! "status") as [status|].
  { destruct (Hget "status" status Hstat) as [paths ->]. by exists paths. }
  by exists [].
Qed.

Lemma PathsFiltered_never_panics_witness :
  ∃ paths,
    Routes.PathsFiltered (Pull Scenario.env (NewHandler Scenario.registry) []).1.2
      {["status" := "live"]} newResponseWriter
    = Ok {| statusCode := Some StatusOK; written := [PPaths paths] |}.
Proof.
  apply PathsFiltered_never_panics. apply reachable_pull, reachable_new.
Defined.

(** X10. No pass ever writes the asset name list of the handler (the pass collects
    the names in a local slice): on every reachable handler it is the empty
    list [NewHandler] created, and that is what the route of the asset names
    responds with. *)
Theorem Assets_route_always_empty (h : Handler) :
  reachable h →
  assets h = []
  ∧ Routes.Assets h newResponseWriter
    = {| statusCode := Some StatusOK; written := [PStrings []] |}.
Proof.
  intros [url (_ & Hassets & _)]%reachable_grows_from_new.
  unfold Routes.Assets. by rewrite Hassets.
Qed.

Lemma Assets_route_always_empty_witness :
  assets (Pull Scenario.quietEnv (NewHandler Scenario.registry) []).1.2 = []
  ∧ Routes.Assets (Pull Scenario.quietEnv (NewHandler Scenario.registry) []).1.2
      newResponseWriter
    = {| statusCode := Some StatusOK; written := [PStrings []] |}.
Proof.
  apply Assets_route_always_empty. apply reachable_pull, reachable_new.
Defined.

#[local] Instance idsResolve_preorder :
  PreOrder (λ h h', idsResolve h → idsResolve h').
Proof. split; [by intros h|]. intros h1 h2 h3 H12 H23 H1. auto. Qed.

Lemma Pull_idsResolve (env : Env) (h : Handler) (tr : list string) :
  idsResolve h → idsResolve (Pull env h tr).1.2.
Proof.
  apply (Pull_preserves (λ h h', idsResolve h → idsResolve h'));
    try (intros; done).
  - intros name chain h0 Hres id n Hid. cbn in *.
    destruct (decide (n = name)) as [->|Hne].
    + rewrite lookup_insert_eq. by eexists.
    + rewrite lookup_insert_ne by done. by apply (Hres id).
  - intros id name h0 Hname Hres id' n Hid. cbn in *.
    destruct (decide (id' = id)) as [->|Hne].
    + rewrite lookup_insert_eq in Hid. by injection Hid as <-.
    + rewrite lookup_insert_ne in Hid by done. by apply (Hres id').
Qed.

Lemma reachable_idsResolve (h : Handler) : reachable h → idsResolve h.
Proof.
  induction 1 as [url|env h tr _ IH].
  - intros id name Hid. cbn in Hid. by rewrite lookup_empty in Hid.
  - by apply Pull_idsResolve.
Qed.

(** X11. On a reachable handler a key that resolves as a chain identifier always
    leads to a stored chain: [findChain] never falls back to the zero
    chain. *)
Theorem findChain_by_id_stored (h : Handler) (key name : string) :
  reachable h →
  chainList h !! key = None →
  chainById h !! key = Some name →
  ∃ chain, chainList h !! name = Some chain ∧ findChain h key = (true, chain).
Proof.
  intros Hreach Hname Hid.
  destruct (reachable_idsResolve h Hreach key name Hid) as [chain Hchain].
  exists chain. split; [done|]. unfold findChain. by rewrite Hname, Hid, Hchain.
Qed.

Lemma findChain_by_id_stored_witness :
  ∃ chain,
    chainList (Pull Scenario.env (NewHandler Scenario.registry) []).1.2 !! "atom"
    = Some chain
    ∧ findChain (Pull Scenario.env (NewHandler Scenario.registry) []).1.2
        "cosmoshub-4" = (true, chain).
Proof.
  apply findChain_by_id_stored.
  - apply reachable_pull, reachable_new.
  - vm_compute. reflexivity.
  - vm_compute. reflexivity.
Defined.

(** ** Discovery of the chains *)

Lemma scanChainEntries_describes (repo : list (gmap string json))
    (listing : list (string * string)) (acc : list string) :
  describes repo listing →
  scanChainEntries repo acc = Ok (acc ++ discoveredChains listing).
Proof.
  intros Hdesc. revert acc.
  induction Hdesc as [|entry [type name] repo listing [Htype Hname] _ IH];
    intros acc.
  - by rewrite app_nil_r.
  - cbn in Htype, Hname. unfold discoveredChains. rewrite filter_cons.
    cbn [scanChainEntries]. rewrite Htype.
    cbn [assertString mbind result_mbind result_bind].
    destruct (decide (type ≠ "dir")) as [Hne|Heq].
    { rewrite decide_False; [apply IH|].
      unfold keptAsChain. cbn [fst snd]. by case_bool_decide. }
    apply dec_stable in Heq as ->.
    rewrite Hname. cbn [assertString mbind result_mbind result_bind].
    destruct (GoStrings.Contains name "testnets") eqn:Htest.
    { rewrite decide_False; [apply IH|].
      unfold keptAsChain. cbn [fst snd]. rewrite Htest. by case_bool_decide. }
    destruct (GoStrings.Contains name ".") eqn:Hdot.
    { rewrite decide_False; [apply IH|].
      unfold keptAsChain. cbn [fst snd]. rewrite Htest, Hdot.
      by case_bool_decide. }
    rewrite decide_True.
    2:{ unfold keptAsChain. cbn [fst snd]. rewrite Htest, Hdot.
        by case_bool_decide. }
    rewrite IH, fmap_cons. cbn [snd]. by rewrite <-app_assoc.
Qed.

(** X1. When the listing of the registry root is fetched and decoded,
    [getChains] replaces the chain name list by the names of the entries of
    type [dir] that contain neither ["testnets"] nor a ['.'], in the order of
    the listing; nothing else of the handler changes, and one request is
    made. *)
Theorem getChains_discovery (env : Env) (h : Handler) (tr : list string)
    (bodyBytes : string) (repo : list (gmap string json))
    (listing : list (string * string)) :
  httpGet env (chainsQuery h) = Response StatusOK bodyBytes true →
  unmarshalRepo env bodyBytes = Some repo →
  describes repo listing →
  getChains env h tr
  = (Ok tt, set_chains (discoveredChains listing) h, tr ++ [chainsQuery h])
  ∧ (∀ name, name ∈ discoveredChains listing ↔
       ("dir", name) ∈ listing
       ∧ GoStrings.Contains name "testnets" = false
       ∧ GoStrings.Contains name "." = false).
Proof.
  intros Hget Hjson Hdesc. split.
  - apply (getChains_ok env h tr bodyBytes repo); [done..|].
    apply (scanChainEntries_describes repo listing [] Hdesc).
  - intros name. unfold discoveredChains. rewrite list_elem_of_fmap. split.
    + intros [[type dir] [-> [Hkept Hin]%list_elem_of_filter]].
      unfold keptAsChain in Hkept. cbn in Hkept.
      apply andb_true_iff in Hkept as [[Htype Ht]%andb_true_iff Hd].
      apply bool_decide_eq_true in Htype as ->.
      apply negb_true_iff in Ht, Hd. done.
    + intros (Hin & Ht & Hd). exists ("dir", name).
      split; [done|]. apply list_elem_of_filter. split; [|done].
      unfold keptAsChain. cbn. by rewrite Ht, Hd.
Qed.

Lemma getChains_discovery_witness :
  getChains Scenario.env (NewHandler Scenario.registry) []
  = (Ok tt, set_chains ["atom"; "osmo"] (NewHandler Scenario.registry),
     [chainsQuery (NewHandler Scenario.registry)]).
Proof.
  apply (getChains_discovery Scenario.env (NewHandler Scenario.registry) [] "root"
           Scenario.rootListing
           [("dir", "atom"); ("dir", "osmo"); ("file", "README.md");
            ("dir", "testnets"); ("dir", ".github")]).
  - reflexivity.
  - reflexivity.
  - repeat constructor.
Defined.

(** X2. A listing entry whose [type] is missing or is not a string makes either
    discovery panic on the type assertion, whatever precedes it in a
    well-formed listing; the handler is left as it was. *)
Theorem discovery_panics_on_untyped_entry (env : Env) (h : Handler)
    (tr : list string) (bodyBytes : string)
    (before after : list (gmap string json)) (entry : gmap string json)
    (listing : list (string * string)) :
  unmarshalRepo env bodyBytes = Some (before ++ entry :: after) →
  describes before listing →
  (∀ s, entry !! "type" ≠ Some (JString s)) →
  (httpGet env (chainsQuery h) = Response StatusOK bodyBytes true →
   getChains env h tr = (Panic PanicTypeAssertion, h, tr ++ [chainsQuery h]))
  ∧ (httpGet env (pathsQuery h) = Response StatusOK bodyBytes true →
     getPaths env h tr = (Panic PanicTypeAssertion, h, tr ++ [pathsQuery h])).
Proof.
  intros Hjson Hdesc Htype.
  assert (Hassert : assertString (entry !! "type") = Panic PanicTypeAssertion).
  { destruct (entry !! "type") as [[| | |s| |]|] eqn:Hlook; try done.
    by destruct (Htype s). }
  assert (Hchains : ∀ acc, scanChainEntries (before ++ entry :: after) acc
                           = Panic PanicTypeAssertion).
  { clear Hjson. induction Hdesc as [|e [type name] repo l [Ht Hn] _ IH];
      intros acc.
    - cbn [app scanChainEntries]. by rewrite Hassert.
    - cbn [app scanChainEntries]. cbn in Ht, Hn. rewrite Ht, Hn. cbn.
      repeat case_decide; repeat case_match; apply IH. }
  assert (Hpaths : ∀ acc, scanPathEntries (before ++ entry :: after) acc
                          = Panic PanicTypeAssertion).
  { clear Hjson Hchains. induction Hdesc as [|e [type name] repo l [Ht Hn] _ IH];
      intros acc.
    - cbn [app scanPathEntries]. by rewrite Hassert.
    - cbn [app scanPathEntries]. cbn in Ht, Hn. rewrite Ht, Hn.
      cbn [assertString mbind result_mbind result_bind].
      change "."%string with (String "."%char "").
      rewrite Split_byte_head. cbn [mbind result_mbind result_bind].
      repeat case_decide; repeat case_match; apply IH. }
  split; intros Hget.
  - unfold getChains, lift. run_fetch.
    rewrite Hget, decide_False by (by intros ?). cbn.
    by rewrite Hjson, Hchains.
  - unfold getPaths, lift. run_fetch.
    rewrite Hget, decide_False by (by intros ?). cbn.
    by rewrite Hjson, Hpaths.
Qed.

Lemma discovery_panics_on_untyped_entry_witness :
  getChains Scenario.untypedEnv (NewHandler Scenario.registry) []
  = (Panic PanicTypeAssertion, NewHandler Scenario.registry,
     [chainsQuery (NewHandler Scenario.registry)])
  ∧ getPaths Scenario.untypedEnv (NewHandler Scenario.registry) []
    = (Panic PanicTypeAssertion, NewHandler Scenario.registry,
       [pathsQuery (NewHandler Scenario.registry)]).
Proof.
  destruct (discovery_panics_on_untyped_entry Scenario.untypedEnv
              (NewHandler Scenario.registry) [] "root"
              [listingEntry "dir" "atom"] [] {["name" := JString "osmo"]}
              [("dir", "atom")]) as [Hchains Hpaths].
  - reflexivity.
  - repeat constructor.
  - intros s. vm_compute. discriminate.
  - split; [apply Hchains|]; [reflexivity|].
    (* the path listing is served under its own body *)
    exact (proj2 (discovery_panics_on_untyped_entry Scenario.untypedEnv
              (NewHandler Scenario.registry) [] "ibc"
              [listingEntry "dir" "atom"] [] {["name" := JString "osmo"]}
              [("dir", "atom")] eq_refl
              ltac:(repeat constructor)
              ltac:(intros s; vm_compute; discriminate)) eq_refl).
Defined.

(** ** The outcomes of a pass *)

(** X3. When the commit-history query fails (the request fails, the status is
    not 200, or the body is not a JSON list), [Pull] returns an error after
    that single request and the handler is exactly the one it started
    from. *)
Theorem Pull_commit_query_failure (env : Env) (h : Handler) (tr : list string) :
  match httpGet env (commitsQuery env h) with
  | GetError => True
  | Response code bodyBytes _ =>
      code ≠ StatusOK ∨ unmarshalList env bodyBytes = None
  end →
  ∃ e, Pull env h tr = (Err e, h, tr ++ [commitsQuery env h]).
Proof.
  intros Hfail. unfold Pull, recentCommits. run_fetch.
  destruct (httpGet env (commitsQuery env h)) as [|code bodyBytes rd]; cbn.
  { by eexists. }
  destruct (decide (code ≠ StatusOK)) as [Hcode|Hcode]; [by eexists|].
  destruct Hfail as [Hfail|Hfail]; [done|]. rewrite Hfail. by eexists.
Qed.

Lemma Pull_commit_query_failure_witness :
  ∃ e, Pull Scenario.rateLimitedEnv (NewHandler Scenario.registry) []
       = (Err e, NewHandler Scenario.registry,
          [commitsQuery Scenario.rateLimitedEnv (NewHandler Scenario.registry)]).
Proof.
  apply (Pull_commit_query_failure Scenario.rateLimitedEnv
           (NewHandler Scenario.registry) []).
  vm_compute. left. discriminate.
Defined.

(** X4. A document answered with status 404 is skipped: the fetch returns
    [nil], makes one request and leaves the handler exactly as it was; the
    body and the decoder are not looked at. *)
Theorem absent_document_skipped (env : Env) (h : Handler) (tr : list string)
    (name chain1Name chain2Name : string) :
  (∀ bodyBytes rd,
     httpGet env (chainQuery h name) = Response StatusNotFound bodyBytes rd →
     getChain env name h tr = (Ok tt, h, tr ++ [chainQuery h name]))
  ∧ (∀ bodyBytes rd,
       httpGet env (assetListQuery h name) = Response StatusNotFound bodyBytes rd →
       getAssetList env name h tr = (Ok tt, h, tr ++ [assetListQuery h name]))
  ∧ (∀ bodyBytes rd,
       httpGet env (pathQuery h (getPathName chain1Name chain2Name))
         = Response StatusNotFound bodyBytes rd →
       getPath env chain1Name chain2Name h tr
       = (Ok tt, h, tr ++ [pathQuery h (getPathName chain1Name chain2Name)])).
Proof.
  repeat split; intros bodyBytes rd Hget.
  - unfold getChain. run_fetch. by rewrite Hget.
  - unfold getAssetList. run_fetch. by rewrite Hget.
  - unfold getPath. run_fetch. by rewrite Hget.
Qed.

Lemma absent_document_skipped_witness :
  getChain Scenario.env "juno" (NewHandler Scenario.registry) []
  = (Ok tt, NewHandler Scenario.registry,
     [chainQuery (NewHandler Scenario.registry) "juno"])
  ∧ getAssetList Scenario.env "juno" (NewHandler Scenario.registry) []
    = (Ok tt, NewHandler Scenario.registry,
       [assetListQuery (NewHandler Scenario.registry) "juno"])
  ∧ getPath Scenario.env "osmo" "juno" (NewHandler Scenario.registry) []
    = (Ok tt, NewHandler Scenario.registry,
       [pathQuery (NewHandler Scenario.registry) (getPathName "osmo" "juno")]).
Proof.
  destruct (absent_document_skipped Scenario.env (NewHandler Scenario.registry)
              [] "juno" "osmo" "juno") as (Hchain & Hassets & Hpath).
  split; [|split].
  - apply (Hchain "" true). reflexivity.
  - apply (Hassets "" true). reflexivity.
  - apply (Hpath "" true). reflexivity.
Defined.

(** X5. A chain document that goes through is stored under the chain name and
    indexed by its identifier, so that [findChain] returns it for the name
    and, unless the identifier is the name of another stored chain, for the
    identifier; the route of the chain answers with it. *)
Theorem getChain_then_findChain (env : Env) (h : Handler) (tr : list string)
    (name bodyBytes : string) (chain : Chain) :
  httpGet env (chainQuery h name) = Response StatusOK bodyBytes true →
  unmarshalChain env bodyBytes = Some chain →
  ∃ h', getChain env name h tr = (Ok tt, h', tr ++ [chainQuery h name])
    ∧ chainList h' = <[name := chain]> (chainList h)
    ∧ chainById h' = <[ChainID chain := name]> (chainById h)
    ∧ findChain h' name = (true, chain)
    ∧ (chainList h !! ChainID chain = None ∨ ChainID chain = name →
       findChain h' (ChainID chain) = (true, chain))
    ∧ Routes.Chain h' {["chain" := name]} newResponseWriter
      = {| statusCode := Some StatusOK; written := [PChain chain] |}.
Proof.
  intros Hget Hjson. eexists. split.
  { unfold getChain. run_fetch. rewrite Hget. cbn. by rewrite Hjson. }
  cbn. split; [done|]. split; [done|].
  assert (Hname : findChain
            (set_chainById (<[ChainID chain := name]> (chainById h))
               (set_chainList (<[name := chain]> (chainList h)) h)) name
          = (true, chain)).
  { unfold findChain. cbn. by rewrite lookup_insert_eq. }
  split; [exact Hname|]. split.
  - intros Hid. unfold findChain. cbn.
    destruct (decide (ChainID chain = name)) as [Heq|Hne].
    { by rewrite Heq, lookup_insert_eq. }
    destruct Hid as [Hid|Hid]; [|done].
    by rewrite lookup_insert_ne, Hid, !lookup_insert_eq by done.
  - unfold Routes.Chain. by rewrite lookup_singleton_eq, Hname.
Qed.

Lemma getChain_then_findChain_witness :
  ∃ h',
    getChain Scenario.env "atom" (NewHandler Scenario.registry) []
    = (Ok tt, h', [chainQuery (NewHandler Scenario.registry) "atom"])
    ∧ findChain h' "atom" = (true, Scenario.atomChain)
    ∧ findChain h' "cosmoshub-4" = (true, Scenario.atomChain).
Proof.
  destruct (getChain_then_findChain Scenario.env (NewHandler Scenario.registry)
              [] "atom" "atom" Scenario.atomChain)
    as (h' & Hrun & _ & _ & Hname & Hid & _); [reflexivity..|].
  exists h'. split; [exact Hrun|]. split; [exact Hname|].
  apply Hid. left. reflexivity.
Defined.

(** X6. A path document that goes through is stored under the canonical name of
    the two chains; for chain names free of ['-'] the route of the path then
    answers with it, whichever way round the request names the chains. *)
Theorem getPath_then_Path_route (env : Env) (h : Handler) (tr : list string)
    (a b bodyBytes : string) (path : Path) :
  tagsReady h →
  GoStrings.Contains a "-" = false →
  GoStrings.Contains b "-" = false →
  httpGet env (pathQuery h (getPathName a b)) = Response StatusOK bodyBytes true →
  unmarshalPath env bodyBytes = Some path →
  ∃ h' tr', getPath env a b h tr = (Ok tt, h', tr')
    ∧ pathList h' = <[getPathName a b := path]> (pathList h)
    ∧ Routes.Path h' {["path" := a +:+ "-" +:+ b]} newResponseWriter
      = Ok {| statusCode := Some StatusOK; written := [PPath path] |}
    ∧ Routes.Path h' {["path" := b +:+ "-" +:+ a]} newResponseWriter
      = Ok {| statusCode := Some StatusOK; written := [PPath path] |}.
Proof.
  intros Hready Ha Hb Hget Hjson.
  set (name := getPathName a b) in *.
  destruct (tagChannels_ok path (Channels path)
              (set_pathList (<[name := path]> (pathList h)) h)
              (tr ++ [pathQuery h name]) Hready) as (tags' & Hrun & _ & _).
  eexists _, _. split.
  { unfold getPath. fold name. run_fetch. rewrite Hget. cbn. rewrite Hjson.
    exact Hrun. }
  cbn. split; [done|].
  assert (Hroute : ∀ x y, GoStrings.Contains x "-" = false →
            GoStrings.Contains y "-" = false → getPathName x y = name →
            Routes.Path
              (set_pathsByTag tags' (set_pathList (<[name := path]> (pathList h)) h))
              {["path" := x +:+ "-" +:+ y]} newResponseWriter
            = Ok {| statusCode := Some StatusOK; written := [PPath path] |}).
  { intros x y Hx Hy Hxy. unfold Routes.Path. rewrite lookup_singleton_eq.
    change (x +:+ "-" +:+ y) with (x +:+ String "-"%char y).
    rewrite Split_byte_app, Split_byte_absent by done.
    cbn. rewrite Hxy. unfold findPath. cbn. by rewrite lookup_insert_eq. }
  split; [by apply Hroute|]. apply Hroute; [done..|]. apply getPathName_sym.
Qed.

Lemma getPath_then_Path_route_witness :
  ∃ h' tr',
    getPath Scenario.env "osmo" "atom" (NewHandler Scenario.registry) []
    = (Ok tt, h', tr')
    ∧ Routes.Path h' {["path" := "osmo-atom"]} newResponseWriter
      = Ok {| statusCode := Some StatusOK;
              written := [PPath Scenario.atomOsmoPath] |}
    ∧ Routes.Path h' {["path" := "atom-osmo"]} newResponseWriter
      = Ok {| statusCode := Some StatusOK;
              written := [PPath Scenario.atomOsmoPath] |}.
Proof.
  destruct (getPath_then_Path_route Scenario.env (NewHandler Scenario.registry)
              [] "osmo" "atom" "atom-osmo" Scenario.atomOsmoPath)
    as (h' & tr' & Hrun & _ & H1 & H2);
    [apply NewHandler_tagsReady|reflexivity..|].
  exists h', tr'. split; [exact Hrun|]. split; [exact H1|exact H2].
Defined.

(** *** Fetches that go through *)

Lemma getChain_through (env : Env) (name : string) (h : Handler) (tr : list string) :
  fetchGoesThrough (unmarshalChain env) (httpGet env (chainQuery h name)) →
  ∃ h', getChain env name h tr = (Ok tt, h', tr ++ [chainQuery h name])
    ∧ docFrame h h'.
Proof.
  intros Hthrough. unfold getChain. run_fetch.
  destruct (httpGet env (chainQuery h name)) as [|code bodyBytes rd]; [done|].
  cbn in *. destruct Hthrough as [->|(-> & -> & [chain Hjson])].
  - eexists. split; [done|]. apply docFrame_refl.
  - cbn. rewrite Hjson. eexists. split; [done|]. by repeat split.
Qed.

Lemma getAssetList_through (env : Env) (name : string) (h : Handler)
    (tr : list string) :
  fetchGoesThrough (unmarshalAssetList env) (httpGet env (assetListQuery h name)) →
  ∃ h', getAssetList env name h tr = (Ok tt, h', tr ++ [assetListQuery h name])
    ∧ docFrame h h'.
Proof.
  intros Hthrough. unfold getAssetList. run_fetch.
  destruct (httpGet env (assetListQuery h name)) as [|code bodyBytes rd]; [done|].
  cbn in *. destruct Hthrough as [->|(-> & -> & [al Hjson])].
  - eexists. split; [done|]. apply docFrame_refl.
  - cbn. rewrite Hjson. eexists. split; [done|]. by repeat split.
Qed.

Lemma getPath_through (env : Env) (chain1Name chain2Name : string)
    (h : Handler) (tr : list string) :
  tagsReady h →
  fetchGoesThrough (unmarshalPath env)
    (httpGet env (pathQuery h (getPathName chain1Name chain2Name))) →
  ∃ h', getPath env chain1Name chain2Name h tr
        = (Ok tt, h', tr ++ [pathQuery h (getPathName chain1Name chain2Name)])
    ∧ docFrame h h'.
Proof.
  intros Hready Hthrough. unfold getPath. run_fetch.
  set (name := getPathName chain1Name chain2Name) in *.
  destruct (httpGet env (pathQuery h name)) as [|code bodyBytes rd]; [done|].
  cbn in Hthrough. destruct Hthrough as [->|(-> & -> & [path Hjson])].
  - eexists. split; [done|]. apply docFrame_refl.
  - rewrite decide_False, decide_False by (by intros ?). cbn [negb].
    rewrite Hjson.
    destruct (tagChannels_ok path (Channels path)
                (set_pathList (<[name := path]> (pathList h)) h)
                (tr ++ [pathQuery h name]) Hready) as (tags' & Hrun & Hdom & _).
    rewrite Hrun. eexists. split; [done|].
    repeat split; cbn; try done. by rewrite Hdom, Hready.
Qed.

(** The loop over the chains when every document goes through: two requests
    per chain. *)
Lemma pullChains_through (env : Env) (cs : list string) (h : Handler)
    (tr : list string) :
  (∀ chain, chain ∈ cs →
     fetchGoesThrough (unmarshalChain env) (httpGet env (chainQuery h chain))
     ∧ fetchGoesThrough (unmarshalAssetList env)
         (httpGet env (assetListQuery h chain))) →
  ∃ h' tr', forM_ cs (pullChain env) h tr = (Ok tt, h', tr')
    ∧ docFrame h h'
    ∧ length tr' = (length tr + 2 * length cs)%nat.
Proof.
  revert h tr. induction cs as [|c cs IH]; intros h tr Hall.
  - eexists _, _. split; [done|]. split; [apply docFrame_refl|]. cbn. lia.
  - destruct (Hall c) as [Hc Ha]; [by left|].
    destruct (getChain_through env c h tr Hc) as (h1 & R1 & F1).
    destruct (docFrame_queries h h1 F1) as (Hq1 & Hq2 & _).
    destruct (getAssetList_through env c h1 (tr ++ [chainQuery h c]))
      as (h2 & R2 & F2); [by rewrite Hq2|].
    assert (F02 : docFrame h h2) by (by eapply docFrame_trans).
    destruct (docFrame_queries h h2 F02) as (Hq1' & Hq2' & _).
    destruct (IH h2 ((tr ++ [chainQuery h c]) ++ [assetListQuery h1 c]))
      as (h3 & tr3 & R3 & F3 & L3).
    { intros chain Hin. rewrite Hq1', Hq2'. apply Hall. by right. }
    exists h3, tr3. split; [|split; [by eapply docFrame_trans|]].
    + assert (Rc : pullChain env c h tr
                   = (Ok tt, h2, (tr ++ [chainQuery h c]) ++ [assetListQuery h1 c])).
      { unfold pullChain. by rewrite (M_bind_ok _ _ _ _ _ _ _ R1). }
      cbn [forM_]. by rewrite (M_bind_ok _ _ _ _ _ _ _ Rc).
    + rewrite L3, !length_app. cbn. lia.
Qed.

(** The loop over the paths runs through a well-behaved front of the list:
    names that split and documents that go through, one request each. *)
Lemma pullPaths_front_through (env : Env) (front rest : list string)
    (h : Handler) (tr : list string) :
  tagsReady h →
  (∀ path, path ∈ front →
     (2 ≤ length (GoStrings.Split path "-"))%nat
     ∧ fetchGoesThrough (unmarshalPath env) (httpGet env (pathQueryOf h path))) →
  ∃ h' tr',
    forM_ (front ++ rest) (pullPath env) h tr = forM_ rest (pullPath env) h' tr'
    ∧ docFrame h h'
    ∧ length tr' = (length tr + length front)%nat.
Proof.
  revert h tr. induction front as [|p front IH]; intros h tr Hready Hall.
  - eexists _, _. split; [done|]. split; [apply docFrame_refl|]. cbn. lia.
  - destruct (Hall p) as [Hsplit Hthrough]; [by left|].
    destruct (index_Split_pathChains p Hsplit) as [H0 H1].
    destruct (getPath_through env (pathChains p).1 (pathChains p).2 h tr
                Hready Hthrough) as (h1 & R1 & F1).
    assert (Rp : pullPath env p h tr = (Ok tt, h1, tr ++ [pathQueryOf h p])).
    { unfold pullPath, lift. cbv [mbind M_mbind M_bind]. by rewrite H0, H1. }
    destruct (docFrame_queries h h1 F1) as (_ & _ & Hq).
    destruct (IH h1 (tr ++ [pathQueryOf h p]))
      as (h2 & tr2 & R2 & F2 & L2).
    { by apply (docFrame_tagsReady h h1). }
    { intros path Hin. rewrite Hq. apply Hall. by right. }
    exists h2, tr2. split; [|split; [by eapply docFrame_trans|]].
    + cbn [app forM_]. by rewrite (M_bind_ok _ _ _ _ _ _ _ Rp).
    + rewrite L2, length_app. cbn. lia.
Qed.

(** X12. A pass in which everything goes through: the commit query reports
    commits, both listings are decoded, every chain document, asset list and
    path document is absent or decodes, and every discovered path name
    splits at ['-'].  Then [Pull] returns [nil]; the handler holds the
    discovered names and the time of the pass, and the pass has made one
    request for the commits, one per listing, two per chain and one per
    path. *)
Theorem Pull_success (env : Env) (h : Handler) (tr : list string)
    (b0 b1 b2 : string) (rd : bool) (commits : list json)
    (repo1 repo2 : list (gmap string json)) (cs ps : list string) :
  httpGet env (commitsQuery env h) = Response StatusOK b0 rd →
  unmarshalList env b0 = Some commits →
  commits ≠ [] →
  httpGet env (chainsQuery h) = Response StatusOK b1 true →
  unmarshalRepo env b1 = Some repo1 →
  scanChainEntries repo1 [] = Ok cs →
  httpGet env (pathsQuery h) = Response StatusOK b2 true →
  unmarshalRepo env b2 = Some repo2 →
  scanPathEntries repo2 [] = Ok ps →
  tagsReady h →
  (∀ chain, chain ∈ cs →
     fetchGoesThrough (unmarshalChain env) (httpGet env (chainQuery h chain))
     ∧ fetchGoesThrough (unmarshalAssetList env)
         (httpGet env (assetListQuery h chain))) →
  (∀ path, path ∈ ps →
     (2 ≤ length (GoStrings.Split path "-"))%nat
     ∧ fetchGoesThrough (unmarshalPath env) (httpGet env (pathQueryOf h path))) →
  ∃ h' tr',
    Pull env h tr = (Ok tt, h', tr')
    ∧ lastUpdated h' = timeNow env
    ∧ chains h' = cs
    ∧ paths h' = ps
    ∧ registryUrl h' = registryUrl h
    ∧ length tr' = (length tr + 3 + 2 * length cs + length ps)%nat.
Proof.
  intros Hget0 Hjson0 Hne Hget1 Hjson1 Hscan1 Hget2 Hjson2 Hscan2 Hready Hcs Hps.
  rewrite (Pull_from_discovery env h tr b0 b1 b2 rd commits repo1 repo2 cs ps)
    by done.
  set (h0 := set_paths ps (set_chains cs h)).
  set (tr0 := tr ++ _).
  assert (Ltr0 : length tr0 = (length tr + 3)%nat).
  { unfold tr0. rewrite !length_app. cbn. lia. }
  destruct (pullChains_through env cs h0 tr0 Hcs) as (h1 & tr1 & R1 & F1 & L1).
  rewrite (M_bind_ok _ _ _ _ _ _ _ R1).
  unfold getH at 1. cbv [mbind M_mbind M_bind].
  assert (paths h1 = ps) as -> by (by destruct F1 as (_&_&_&_&->&_)).
  destruct (docFrame_queries h0 h1 F1) as (_ & _ & Hq).
  destruct (pullPaths_front_through env ps [] h1 tr1)
    as (h2 & tr2 & R2 & F2 & L2).
  { by apply (docFrame_tagsReady h0 h1 F1). }
  { intros path Hin. rewrite Hq. by apply Hps. }
  rewrite app_nil_r in R2. rewrite R2. cbn.
  eexists _, _. split; [done|]. cbn.
  destruct (docFrame_trans _ _ _ F1 F2) as (Hurl & _ & Hchains & _ & Hpaths & _).
  repeat split; try done. lia.
Qed.

Lemma Pull_success_witness :
  ∃ h' tr',
    Pull Scenario.healthyEnv (NewHandler Scenario.registry) [] = (Ok tt, h', tr')
    ∧ lastUpdated h' = 1700000000
    ∧ chains h' = ["atom"; "osmo"]
    ∧ paths h' = ["atom-osmo"]
    ∧ registryUrl h' = Scenario.registry
    ∧ length tr' = 8%nat.
Proof.
  apply (Pull_success Scenario.healthyEnv (NewHandler Scenario.registry) []
           "commits" "root" "ibc" true [JNull]
           Scenario.rootListing Scenario.ibcListing ["atom"; "osmo"] ["atom-osmo"]);
    try reflexivity; try discriminate.
  - intros chain Hin.
    apply elem_of_cons in Hin as [->|Hin];
      [|apply elem_of_cons in Hin as [->|Hin]; [|by apply elem_of_nil in Hin]].
    + split; [right; repeat split; by eexists|by left].
    + split; by left.
  - intros path Hin.
    apply elem_of_cons in Hin as [->|Hin]; [|by apply elem_of_nil in Hin].
    split; [vm_compute; lia|]. right. repeat split. by eexists.
Defined.

Lemma pullPath_undashed (env : Env) (path : string) (h : Handler)
    (tr : list string) :
  GoStrings.Contains path "-" = false →
  pullPath env path h tr = (Panic (PanicIndex 1 1), h, tr).
Proof.
  intros Hbad. unfold pullPath, lift. cbv [mbind M_mbind M_bind].
  change "-"%string with (String "-"%char "").
  by rewrite (Split_byte_absent _ _ Hbad).
Qed.

(** X13. A discovered path name without ['-'] (the file name had a ['.'] before
    its first ['-']) makes the pass panic on the second chain name, once the
    chains and the paths before it have gone through; nothing is published. *)
Theorem Pull_panics_on_undashed_path_name (env : Env) (h : Handler)
    (tr : list string) (b0 b1 b2 : string) (rd : bool) (commits : list json)
    (repo1 repo2 : list (gmap string json)) (cs front rest : list string)
    (bad : string) :
  httpGet env (commitsQuery env h) = Response StatusOK b0 rd →
  unmarshalList env b0 = Some commits →
  commits ≠ [] →
  httpGet env (chainsQuery h) = Response StatusOK b1 true →
  unmarshalRepo env b1 = Some repo1 →
  scanChainEntries repo1 [] = Ok cs →
  httpGet env (pathsQuery h) = Response StatusOK b2 true →
  unmarshalRepo env b2 = Some repo2 →
  scanPathEntries repo2 [] = Ok (front ++ bad :: rest) →
  tagsReady h →
  (∀ chain, chain ∈ cs →
     fetchGoesThrough (unmarshalChain env) (httpGet env (chainQuery h chain))
     ∧ fetchGoesThrough (unmarshalAssetList env)
         (httpGet env (assetListQuery h chain))) →
  (∀ path, path ∈ front →
     (2 ≤ length (GoStrings.Split path "-"))%nat
     ∧ fetchGoesThrough (unmarshalPath env) (httpGet env (pathQueryOf h path))) →
  GoStrings.Contains bad "-" = false →
  ∃ h' tr',
    Pull env h tr = (Panic (PanicIndex 1 1), h', tr')
    ∧ lastUpdated h' = lastUpdated h
    ∧ chainByAsset h' = chainByAsset h.
Proof.
  intros Hget0 Hjson0 Hne Hget1 Hjson1 Hscan1 Hget2 Hjson2 Hscan2 Hready Hcs
    Hfront Hbad.
  rewrite (Pull_from_discovery env h tr b0 b1 b2 rd commits repo1 repo2 cs
             (front ++ bad :: rest)) by done.
  set (h0 := set_paths (front ++ bad :: rest) (set_chains cs h)).
  set (tr0 := tr ++ _).
  destruct (pullChains_through env cs h0 tr0 Hcs) as (h1 & tr1 & R1 & F1 & _).
  rewrite (M_bind_ok _ _ _ _ _ _ _ R1).
  unfold getH at 1. cbv [mbind M_mbind M_bind].
  assert (paths h1 = front ++ bad :: rest) as ->
    by (by destruct F1 as (_&_&_&_&->&_)).
  destruct (docFrame_queries h0 h1 F1) as (_ & _ & Hq).
  destruct (pullPaths_front_through env front (bad :: rest) h1 tr1)
    as (h2 & tr2 & R2 & F2 & _).
  { by apply (docFrame_tagsReady h0 h1 F1). }
  { intros path Hin. rewrite Hq. by apply Hfront. }
  rewrite R2.
  assert (Rrest : forM_ (bad :: rest) (pullPath env) h2 tr2
                  = (Panic (PanicIndex 1 1), h2, tr2)).
  { cbn [forM_]. apply M_bind_panic, pullPath_undashed, Hbad. }
  rewrite Rrest. eexists _, _. split; [done|].
  destruct (docFrame_trans _ _ _ F1 F2) as (_ & Hlast & _ & _ & _ & Hasset & _).
  by split.
Qed.

Lemma Pull_panics_on_undashed_path_name_witness :
  ∃ h' tr',
    Pull Scenario.dottedEnv (NewHandler Scenario.registry) []
    = (Panic (PanicIndex 1 1), h', tr')
    ∧ lastUpdated h' = 0
    ∧ chainByAsset h' = ∅.
Proof.
  apply (Pull_panics_on_undashed_path_name Scenario.dottedEnv
           (NewHandler Scenario.registry) []
           "commits" "root" "ibc" true [JNull]
           Scenario.rootListing Scenario.dottedListing ["atom"; "osmo"]
           ["atom-osmo"] [] "v2");
    try reflexivity; try discriminate.
  - intros chain Hin.
    apply elem_of_cons in Hin as [->|Hin];
      [|apply elem_of_cons in Hin as [->|Hin]; [|by apply elem_of_nil in Hin]].
    + split; [right; repeat split; by eexists|by left].
    + split; by left.
  - intros path Hin.
    apply elem_of_cons in Hin as [->|Hin]; [|by apply elem_of_nil in Hin].
    split; [vm_compute; lia|]. right. repeat split. by eexists.
Defined.

(** X14. A path file named with its two chains in descending order is never
    requested under its own name: the pass asks for the name with the chains
    swapped, and when that document is absent it goes on without storing
    anything. *)
Theorem pullPath_descending_name (env : Env) (h : Handler) (tr : list string)
    (a b bodyBytes : string) (rd : bool) :
  GoStrings.Contains a "-" = false →
  GoStrings.Contains b "-" = false →
  GoStrings.Compare a b = 1 →
  httpGet env (pathQuery h (b +:+ "-" +:+ a))
    = Response StatusNotFound bodyBytes rd →
  pathQueryOf h (a +:+ "-" +:+ b) = pathQuery h (b +:+ "-" +:+ a)
  ∧ pullPath env (a +:+ "-" +:+ b) h tr
    = (Ok tt, h, tr ++ [pathQuery h (b +:+ "-" +:+ a)]).
Proof.
  intros Ha Hb Hgt Hget.
  assert (Hsplit : GoStrings.Split (a +:+ "-" +:+ b) "-" = [a; b]).
  { change (a +:+ "-" +:+ b) with (a +:+ String "-"%char b).
    change "-"%string with (String "-"%char "").
    by rewrite Split_byte_app, Split_byte_absent. }
  assert (Hname : getPathName a b = b +:+ "-" +:+ a).
  { unfold getPathName. by rewrite decide_True. }
  split.
  - unfold pathQueryOf, pathChains. rewrite Hsplit. cbn. by rewrite Hname.
  - unfold pullPath, lift. cbv [mbind M_mbind M_bind]. rewrite Hsplit. cbn.
    unfold getPath. run_fetch. rewrite Hname, Hget. done.
Qed.

Lemma pullPath_descending_name_witness :
  pathQueryOf (NewHandler Scenario.registry) "osmo-juno"
  = pathQuery (NewHandler Scenario.registry) "juno-osmo"
  ∧ pullPath Scenario.env "osmo-juno" (NewHandler Scenario.registry) []
    = (Ok tt, NewHandler Scenario.registry,
       [pathQuery (NewHandler Scenario.registry) "juno-osmo"]).
Proof.
  apply (pullPath_descending_name Scenario.env (NewHandler Scenario.registry) []
           "osmo" "juno" "" true); reflexivity.
Defined.

(** ** The routes *)

(** X15. For two chain names free of ['-'] the route of a path answers with the
    path stored under their canonical name, and with 404 and no body when
    there is none. *)
Theorem Path_route_lookup (h : Handler) (a b : string) :
  GoStrings.Contains a "-" = false →
  GoStrings.Contains b "-" = false →
  Routes.Path h {["path" := a +:+ "-" +:+ b]} newResponseWriter
  = Ok (match pathList h !! getPathName a b with
        | Some path => {| statusCode := Some StatusOK; written := [PPath path] |}
        | None => {| statusCode := Some StatusNotFound; written := [] |}
        end).
Proof.
  intros Ha Hb. unfold Routes.Path. rewrite lookup_singleton_eq.
  change (a +:+ "-" +:+ b) with (a +:+ String "-"%char b).
  change "-"%string with (String "-"%char "").
  rewrite Split_byte_app, Split_byte_absent by done. cbn.
  unfold findPath. by destruct (pathList h !! getPathName a b).
Qed.

Lemma Path_route_lookup_witness :
  Routes.Path (NewHandler Scenario.registry) {["path" := "atom-osmo"]}
    newResponseWriter
  = Ok {| statusCode := Some StatusNotFound; written := [] |}.
Proof.
  apply (Path_route_lookup (NewHandler Scenario.registry) "atom" "osmo");
    reflexivity.
Defined.

(** X16. Only the first two pieces of the requested path string are used: a
    request for ["a-b-rest"] is answered like the request for ["a-b"]. *)
Theorem Path_route_ignores_further_pieces (h : Handler) (a b rest : string)
    (res : ResponseWriter) :
  GoStrings.Contains a "-" = false →
  GoStrings.Contains b "-" = false →
  Routes.Path h {["path" := a +:+ "-" +:+ b +:+ "-" +:+ rest]} res
  = Routes.Path h {["path" := a +:+ "-" +:+ b]} res.
Proof.
  intros Ha Hb. unfold Routes.Path. rewrite !lookup_singleton_eq.
  change (a +:+ "-" +:+ b +:+ "-" +:+ rest)
    with (a +:+ String "-"%char (b +:+ String "-"%char rest)).
  change (a +:+ "-" +:+ b) with (a +:+ String "-"%char b).
  change "-"%string with (String "-"%char "").
  rewrite !Split_byte_app by done. by rewrite (Split_byte_absent _ b).
Qed.

Lemma Path_route_ignores_further_pieces_witness :
  Routes.Path Scenario.stocked {["path" := "atom-osmo-testnet"]} newResponseWriter
  = Routes.Path Scenario.stocked {["path" := "atom-osmo"]} newResponseWriter.
Proof.
  apply (Path_route_ignores_further_pieces Scenario.stocked "atom" "osmo"
           "testnet"); reflexivity.
Defined.

(** X17. The route of the endpoints: an unresolved chain is answered with 404
    whatever the endpoint type; for a resolved chain one of the five types is
    answered with status 200 and the list of that type, and any other type
    with 400 and no body. *)
Theorem Endpoints_route_outcomes (h : Handler) (chainName endpointType : string) :
  let res := Routes.Endpoints h
               (<["chain" := chainName]> {["type" := endpointType]})
               newResponseWriter in
  ((findChain h chainName).1 = false →
     res = {| statusCode := Some StatusNotFound; written := [] |})
  ∧ ((findChain h chainName).1 = true →
       endpointType ∉ ["rpc"; "grpc"; "rest"; "peers"; "seeds"] →
       res = {| statusCode := Some StatusBadRequest; written := [] |})
  ∧ ((findChain h chainName).1 = true →
       endpointType ∈ ["rpc"; "grpc"; "rest"; "peers"; "seeds"] →
       let chain := (findChain h chainName).2 in
       res = {| statusCode := Some StatusOK;
                written := [PStrings
                  (if decide (endpointType = "rpc") then RPC (Apis chain)
                   else if decide (endpointType = "grpc") then Grpc (Apis chain)
                   else if decide (endpointType = "rest") then REST (Apis chain)
                   else if decide (endpointType = "peers")
                        then PersistentPeers (Peers chain)
                   else Seeds (Peers chain))] |}).
Proof.
  cbv zeta. unfold Routes.Endpoints.
  rewrite lookup_insert_eq, lookup_insert_ne, lookup_singleton_eq by done.
  destruct (findChain h chainName) as [found chain]. cbn [fst snd].
  split; [by intros ->|]. split.
  - intros -> Hnot. cbn [negb].
    rewrite !decide_False; [done|intros ->; apply Hnot..].
    + do 4 right. by left.
    + do 3 right. by left.
    + do 2 right. by left.
    + right. by left.
    + by left.
  - intros -> Hin. cbn [negb].
    repeat (apply elem_of_cons in Hin as [->|Hin]; [done|]).
    by apply elem_of_nil in Hin.
Qed.

Lemma Endpoints_route_outcomes_witness :
  Routes.Endpoints Scenario.stocked (<["chain" := "juno"]> {["type" := "rpc"]})
    newResponseWriter
  = {| statusCode := Some StatusNotFound; written := [] |}
  ∧ Routes.Endpoints Scenario.stocked
      (<["chain" := "cosmoshub-4"]> {["type" := "ws"]}) newResponseWriter
    = {| statusCode := Some StatusBadRequest; written := [] |}
  ∧ Routes.Endpoints Scenario.stocked
      (<["chain" := "cosmoshub-4"]> {["type" := "rpc"]}) newResponseWriter
    = {| statusCode := Some StatusOK;
         written := [PStrings ["https://rpc.atom.example"]] |}.
Proof.
  split; [|split].
  - apply (Endpoints_route_outcomes Scenario.stocked "juno" "rpc"). reflexivity.
  - apply (Endpoints_route_outcomes Scenario.stocked "cosmoshub-4" "ws").
    + reflexivity.
    + intros Hin. repeat (apply elem_of_cons in Hin as [Hin|Hin]; [discriminate Hin|]).
      by apply elem_of_nil in Hin.
  - apply (Endpoints_route_outcomes Scenario.stocked "cosmoshub-4" "rpc").
    + reflexivity.
    + by left.
Defined.

(** X18. The route of an asset answers with an asset only if that asset has the
    requested display name and belongs to the asset list of the chain the
    name is indexed to; in every other case it answers 404 with no body. *)
Theorem Asset_route_sound (h : Handler) (assetName : string) :
  let res := Routes.Asset h {["asset" := assetName]} newResponseWriter in
  (∃ asset chainName al,
     res = {| statusCode := Some StatusOK; written := [PAsset asset] |}
     ∧ chainByAsset h !! assetName = Some chainName
     ∧ assetList h !! chainName = Some al
     ∧ asset ∈ Assets al
     ∧ Display asset = assetName)
  ∨ (res = {| statusCode := Some StatusNotFound; written := [] |}
     ∧ ∀ chainName al,
         chainByAsset h !! assetName = Some chainName →
         assetList h !! chainName = Some al →
         ∀ asset, asset ∈ Assets al → Display asset ≠ assetName).
Proof.
  cbv zeta. unfold Routes.Asset. rewrite lookup_singleton_eq.
  destruct (chainByAsset h !! assetName) as [chainName|] eqn:Hchain.
  2:{ right. split; [done|]. intros ?? [=]. }
  destruct (assetList h !! chainName) as [al|] eqn:Hal;
    cbn [default from_option id].
  2:{ right. split; [done|]. intros ?? [= <-]. by rewrite Hal. }
  destruct (list_find (λ asset, Display asset = assetName) (Assets al))
    as [[i asset]|] eqn:Hfind.
  - apply list_find_Some in Hfind as (Hi & Hdisp & _).
    left. exists asset, chainName, al. repeat split; try done.
    by apply list_elem_of_lookup_2 in Hi.
  - right. split; [done|]. intros ?? [= <-]. rewrite Hal. intros [= <-].
    intros asset Hin Hdisp.
    apply list_find_None in Hfind.
    rewrite Forall_forall in Hfind. by apply (Hfind asset).
Qed.

(** X19. The routes of a chain, of its endpoints and of an asset always produce
    a clean response: one status line, and a body only with status 200.
    (The route of the asset lists is the exception.) *)
Theorem routes_respond_cleanly (h : Handler) (vars : gmap string string) :
  cleanResponse (Routes.Chain h vars newResponseWriter)
  ∧ cleanResponse (Routes.Endpoints h vars newResponseWriter)
  ∧ cleanResponse (Routes.Asset h vars newResponseWriter)
  ∧ (∀ w, Routes.Path h vars newResponseWriter = Ok w → cleanResponse w)
  ∧ (∀ w, Routes.PathsFiltered h vars newResponseWriter = Ok w → cleanResponse w).
Proof.
  unfold cleanResponse. repeat split.
  - unfold Routes.Chain. destruct (vars !! "chain"); [|by right; right].
    destruct (findChain h s) as [[] chain]; cbn; [left; by eexists|by right; left].
  - unfold Routes.Endpoints. destruct (vars !! "chain"); [|by right; right].
    destruct (vars !! "type"); [|by right; right].
    destruct (findChain h s) as [[] chain]; cbn; [|by right; left].
    repeat case_decide; first [left; by eexists|by right; right].
  - unfold Routes.Asset. destruct (vars !! "asset"); [|by right; right].
    destruct (chainByAsset h !! s); [|by right; left].
    destruct (list_find _ _) as [[i asset]|]; [left; by eexists|by right; left].
  - intros w. unfold Routes.Path. destruct (vars !! "path").
    2:{ intros [= <-]. by right; right. }
    destruct (index (GoStrings.Split s "-") 0) as [c1| |]; cbn; [|done..].
    destruct (index (GoStrings.Split s "-") 1) as [c2| |]; cbn; [|done..].
    destruct (findPath h (getPathName c1 c2)) as [[] path]; cbn;
      intros [= <-]; [left; by eexists|by right; left].
  - intros w. unfold Routes.PathsFiltered.
    repeat (destruct (vars !! _);
            [destruct (getPathsWithTag h _ _); cbn; [|done..];
             intros [= <-]; left; by eexists|]).
    intros [= <-]. left. by eexists.
Qed.

(** ** The indexes read back *)

(** With a recognized tag and a non-empty value, [getPathsWithTag] on a
    handler whose tag index is ready returns the bucket of that tag value,
    as the passes have built it. *)
Lemma getPathsWithTag_bucket (h : Handler) (tag value : string) :
  tagsReady h →
  tag ∈ recognizedTags →
  value ≠ "" →
  getPathsWithTag h tag value = Ok (bucket (pathsByTag h) tag value).
Proof.
  intros Hready [byTag Htag]%(tagsReady_lookup h tag Hready) Hvalue.
  unfold getPathsWithTag, bucket.
  destruct (decide (String.length value = 0%nat)) as [Hlen|_].
  { by destruct value. }
  rewrite Htag. cbn. by destruct (byTag !! value).
Qed.

(** X20. Ingesting a path document extends the answer of the tag query: for a
    recognized tag and a non-empty value, [getPathsWithTag] after [getPath]
    returns what it returned before, followed by one copy of the path for
    each of its channels that qualifies.  A path ingested again by a later
    pass is therefore returned again. *)
Theorem getPath_then_getPathsWithTag (env : Env) (h : Handler) (tr : list string)
    (chain1Name chain2Name bodyBytes tag value : string) (path : Path) :
  httpGet env (pathQuery h (getPathName chain1Name chain2Name))
    = Response StatusOK bodyBytes true →
  unmarshalPath env bodyBytes = Some path →
  tagsReady h →
  tag ∈ recognizedTags →
  value ≠ "" →
  ∃ before h' tr',
    getPathsWithTag h tag value = Ok before
    ∧ getPath env chain1Name chain2Name h tr = (Ok tt, h', tr')
    ∧ getPathsWithTag h' tag value
      = Ok (before
            ++ replicate
                 (countChannels (λ c, bool_decide (tagValue tag c = Some value))
                    (Channels path))
                 path).
Proof.
  intros Hget Hjson Hready Htag Hvalue.
  set (name := getPathName chain1Name chain2Name) in *.
  destruct (tagChannels_ok path (Channels path)
              (set_pathList (<[name := path]> (pathList h)) h)
              (tr ++ [pathQuery h name]) Hready) as (tags' & Hrun & Hdom & Hb).
  eexists _, _, _. split; [by apply getPathsWithTag_bucket|]. split.
  { unfold getPath. fold name. run_fetch. rewrite Hget. cbn. rewrite Hjson.
    exact Hrun. }
  rewrite getPathsWithTag_bucket; [|exact Hdom|done..].
  cbn. by rewrite Hb.
Qed.

Lemma getPath_then_getPathsWithTag_witness :
  ∃ before h' tr',
    getPathsWithTag (NewHandler Scenario.registry) "dex" "osmosis" = Ok before
    ∧ getPath Scenario.env "atom" "osmo" (NewHandler Scenario.registry) []
      = (Ok tt, h', tr')
    ∧ getPathsWithTag h' "dex" "osmosis"
      = Ok (before
            ++ replicate
                 (countChannels
                    (λ c, bool_decide (tagValue "dex" c = Some "osmosis"))
                    (Channels Scenario.atomOsmoPath))
                 Scenario.atomOsmoPath).
Proof.
  apply (getPath_then_getPathsWithTag Scenario.env (NewHandler Scenario.registry)
           [] "atom" "osmo" "atom-osmo" "dex" "osmosis" Scenario.atomOsmoPath).
  - reflexivity.
  - reflexivity.
  - apply NewHandler_tagsReady.
  - apply recognizedTags_elems.
  - discriminate.
Defined.

(** *** The index of the chains by asset *)

Lemma assets_fold_lookup (name d : string) (al : list Asset)
    (m : gmap string string) :
  foldl (λ byAsset asset, <[Display asset := name]> byAsset) m al !! d
  = if bool_decide (d ∈ Display <$> al) then Some name else m !! d.
Proof.
  revert m. induction al as [|a al IH]; intros m; cbn [foldl fmap list_fmap].
  - rewrite bool_decide_eq_false_2; [done|]. apply not_elem_of_nil.
  - rewrite IH. destruct (decide (d ∈ Display <$> al)) as [Hin|Hout].
    + rewrite !bool_decide_eq_true_2; [done| |done]. by right.
    + rewrite (bool_decide_eq_false_2 (d ∈ Display <$> al)) by done.
      destruct (decide (d = Display a)) as [->|Hne].
      * rewrite lookup_insert_eq, bool_decide_eq_true_2; [done|]. by left.
      * rewrite lookup_insert_ne by done.
        rewrite bool_decide_eq_false_2; [done|].
        intros [?|?]%elem_of_cons; done.
Qed.

Lemma indexAssets_fold (byId : gmap string string)
    (l : list (string * AssetList)) (m : gmap string string) (d : string) :
  let step := λ (byAsset : gmap string string) (entry : string * AssetList),
    let name := default "" (byId !! AssetsChainID entry.2) in
    foldl (λ byAsset asset, <[Display asset := name]> byAsset)
          byAsset (Assets entry.2) in
  (∀ n, foldl step m l !! d = Some n →
     m !! d = Some n
     ∨ ∃ entry, entry ∈ l ∧ d ∈ Display <$> Assets entry.2
         ∧ n = default "" (byId !! AssetsChainID entry.2))
  ∧ (is_Some (foldl step m l !! d) ↔
       is_Some (m !! d) ∨ ∃ entry, entry ∈ l ∧ d ∈ Display <$> Assets entry.2).
Proof.
  cbv zeta. revert m. induction l as [|e l IH]; intros m; cbn [foldl].
  - split; [by left|]. split; [by left|].
    intros [?|(entry & Hin & _)]; [done|]. by apply elem_of_nil in Hin.
  - destruct (IH (foldl (λ byAsset asset,
                    <[Display asset := default "" (byId !! AssetsChainID e.2)]> byAsset)
                    m (Assets e.2))) as [IHv IHk].
    split.
    + intros n Hn. destruct (IHv n Hn) as [Hm|(entry & Hin & Hd & ->)].
      * rewrite assets_fold_lookup in Hm. case_bool_decide as Hde.
        -- right. exists e. split; [by left|]. split; [done|]. by injection Hm.
        -- by left.
      * right. exists entry. split; [by right|done].
    + rewrite IHk, assets_fold_lookup. split.
      * intros [Hm|(entry & Hin & Hd)].
        -- case_bool_decide as Hde; [|by left].
           right. exists e. split; [by left|done].
        -- right. exists entry. split; [by right|done].
      * intros [Hm|(entry & [->|Hin]%elem_of_cons & Hd)].
        -- left. by case_bool_decide.
        -- left. by rewrite bool_decide_eq_true_2.
        -- right. by exists entry.
Qed.

(** X21. The closing loop of a pass indexes every asset of every stored asset
    list: afterwards a display name is a key of the index exactly when it was
    one before or some stored asset list has an asset of that name, and the
    chain name it maps to is the old one or the name [chainById] gives for
    the chain identifier of such a list (the empty name when the identifier
    is unknown). *)
Theorem indexAssets_entries (h : Handler) (d : string) :
  (is_Some (indexAssets h !! d) ↔
     is_Some (chainByAsset h !! d)
     ∨ ∃ name al asset, assetList h !! name = Some al
         ∧ asset ∈ Assets al ∧ Display asset = d)
  ∧ (∀ n, indexAssets h !! d = Some n →
       chainByAsset h !! d = Some n
       ∨ ∃ name al asset, assetList h !! name = Some al
           ∧ asset ∈ Assets al ∧ Display asset = d
           ∧ n = default "" (chainById h !! AssetsChainID al)).
Proof.
  destruct (indexAssets_fold (chainById h) (map_to_list (assetList h))
              (chainByAsset h) d) as [Hv Hk].
  unfold indexAssets. split.
  - rewrite Hk. split; (intros [Hold|Hnew]; [by left|right]).
    + destruct Hnew as ([name al] & Hin%elem_of_map_to_list & Hd).
      apply list_elem_of_fmap in Hd as (asset & -> & Hasset).
      by exists name, al, asset.
    + destruct Hnew as (name & al & asset & Hal & Hasset & <-).
      exists (name, al). split; [by apply elem_of_map_to_list|].
      apply list_elem_of_fmap. by exists asset.
  - intros n Hn. destruct (Hv n Hn) as [Hold|Hnew]; [by left|right].
    destruct Hnew as ([name al] & Hin%elem_of_map_to_list & Hd & ->).
    apply list_elem_of_fmap in Hd as (asset & -> & Hasset).
    by exists name, al, asset.
Qed.

(** ** A pass that meets a failing document *)

Lemma M_bind_ext {A B} (m1 m2 : M A) (f : A → M B) (h : Handler)
    (tr : list string) :
  m1 h tr = m2 h tr → (m1 ≫= f) h tr = (m2 ≫= f) h tr.
Proof. intros Hm. unfold mbind, M_mbind, M_bind. by rewrite Hm. Qed.

Lemma forM_app {A} (l1 l2 : list A) (body : A → M unit) (h : Handler)
    (tr : list string) :
  forM_ (l1 ++ l2) body h tr = (forM_ l1 body ;; forM_ l2 body) h tr.
Proof.
  revert h tr. induction l1 as [|x l1 IH]; intros h tr; [done|].
  cbn [app forM_]. unfold mbind, M_mbind, M_bind in *.
  destruct (body x h tr) as [[[[]|e|p] h1] tr1]; [apply IH|done..].
Qed.

Lemma forM_fmap {A B} (g : A → B) (l : list A) (body : B → M unit)
    (h : Handler) (tr : list string) :
  forM_ (g <$> l) body h tr = forM_ l (λ x, body (g x)) h tr.
Proof.
  revert h tr. induction l as [|x l IH]; intros h tr; [done|].
  cbn [fmap list_fmap forM_]. unfold mbind, M_mbind, M_bind.
  destruct (body (g x) h tr) as [[[[]|e|p] h1] tr1]; [apply IH|done..].
Qed.

Lemma forM_chainFetches (env : Env) (cs : list string) (h : Handler)
    (tr : list string) :
  forM_ (chainFetches cs) (runFetch env) h tr = forM_ cs (pullChain env) h tr.
Proof.
  revert h tr. induction cs as [|c cs IH]; intros h tr; [done|].
  cbn [chainFetches forM_ runFetch]. unfold pullChain.
  unfold mbind, M_mbind, M_bind.
  destruct (getChain env c h tr) as [[[[]|e|p] h1] tr1]; [|done..].
  destruct (getAssetList env c h1 tr1) as [[[[]|e|p] h2] tr2]; [apply IH|done..].
Qed.

(** The two loops of [Pull] are the run of the fetch sequence. *)
Lemma loops_as_fetches (env : Env) (cs : list string) (k : M unit)
    (h : Handler) (tr : list string) :
  (forM_ cs (pullChain env) ;;
   h' ← getH;
   forM_ (paths h') (pullPath env) ;;
   k) h tr
  = (forM_ (fetchesOf cs (paths h)) (runFetch env) ;; k) h tr.
Proof.
  unfold fetchesOf.
  pose proof (forM_app (chainFetches cs) (FPath <$> paths h) (runFetch env) h tr)
    as Happ.
  destruct (pullChains_outcome env cs h tr) as (r & h1 & tr1 & R & F & _).
  unfold mbind, M_mbind, M_bind in *.
  rewrite Happ, forM_chainFetches, R.
  destruct r as [[]|e|p]; [|done..].
  destruct F as (_ & _ & _ & _ & Hpaths & _).
  unfold getH. by rewrite Hpaths, forM_fmap.
Qed.

(** One fetch: it returns [nil], or it returns an error and leaves the
    handler exactly as it found it; it returns an error when it fails. *)
Lemma runFetch_step (env : Env) (f : fetch) (h : Handler) (tr : list string) :
  fetchReady h f →
  ∃ r h' tr', runFetch env f h tr = (r, h', tr')
    ∧ docFrame h h'
    ∧ (r = Ok tt ∨ (∃ e, r = Err e) ∧ h' = h)
    ∧ (fetchFailsAt env h f → ∃ e, r = Err e).
Proof.
  assert (Hstep : ∀ (r : result unit) (h' : Handler),
            (r = Ok tt ∨ ∃ e, r = Err e) →
            (∀ e, r = Err e → h' = h) →
            r = Ok tt ∨ (∃ e, r = Err e) ∧ h' = h).
  { intros r h' [->|[e ->]] Hsame; [by left|right]. split; [by eexists|].
    by apply (Hsame e). }
  destruct f as [chain|chain|path]; cbn [runFetch fetchReady fetchFailsAt].
  - intros _.
    destruct (getChain_outcome env chain h tr) as (r & h' & R & F & O & E).
    exists r, h', (tr ++ [chainQuery h chain]). split; [done|]. split; [done|].
    split; [|intros Hf; by destruct (E Hf)].
    apply Hstep; [done|]. intros e ->. revert R.
    unfold getChain. run_fetch.
    destruct (httpGet env (chainQuery h chain)) as [|code bodyBytes rd]; cbn;
      [by intros [= <-]|].
    repeat case_decide; try (by intros [= <-]); try (by intros [=]).
    destruct rd; cbn; [|by intros [= <-]].
    destruct (unmarshalChain env bodyBytes); by intros [=].
  - intros _.
    destruct (getAssetList_outcome env chain h tr) as (r & h' & R & F & O & E).
    exists r, h', (tr ++ [assetListQuery h chain]). split; [done|].
    split; [done|]. split; [|intros Hf; by destruct (E Hf)].
    apply Hstep; [done|]. intros e ->. revert R.
    unfold getAssetList. run_fetch.
    destruct (httpGet env (assetListQuery h chain)) as [|code bodyBytes rd]; cbn;
      [by intros [= <-]|].
    repeat case_decide; try (by intros [= <-]); try (by intros [=]).
    destruct rd; cbn; [|by intros [= <-]].
    destruct (unmarshalAssetList env bodyBytes); by intros [=].
  - intros [Hready Hsplit].
    destruct (index_Split_pathChains path Hsplit) as [H0 H1].
    assert (Hrun : pullPath env path h tr
                   = getPath env (pathChains path).1 (pathChains path).2 h tr).
    { unfold pullPath, lift. cbv [mbind M_mbind M_bind]. by rewrite H0, H1. }
    rewrite Hrun.
    destruct (getPath_outcome env (pathChains path).1 (pathChains path).2 h tr
                Hready) as (r & h' & tr' & R & F & O & E).
    exists r, h', tr'. split; [done|]. split; [done|].
    split; [|intros Hf; by destruct (E Hf)].
    apply Hstep; [done|]. intros e ->. revert R.
    unfold getPath. run_fetch.
    set (name := getPathName (pathChains path).1 (pathChains path).2).
    destruct (httpGet env (pathQuery h name)) as [|code bodyBytes rd]; cbn;
      [by intros [= <-]|].
    repeat case_decide; try (by intros [= <-]); try (by intros [=]).
    destruct rd; cbn; [|by intros [= <-]].
    destruct (unmarshalPath env bodyBytes) as [p|]; [|by intros [= <-]].
    destruct (tagChannels_ok p (Channels p)
                (set_pathList (<[name := p]> (pathList h)) h)
                (tr ++ [pathQuery h name]) Hready) as (tags' & Hch & _).
    rewrite Hch. by intros [=].
Qed.

Lemma fetchReady_frame (h h' : Handler) (f : fetch) :
  docFrame h h' → fetchReady h f → fetchReady h' f.
Proof.
  intros F. destruct f; cbn; [done..|]. intros [Hready Hsplit].
  split; [by apply (docFrame_tagsReady h h')|done].
Qed.

Lemma fetchFailsAt_frame (env : Env) (h h' : Handler) (f : fetch) :
  docFrame h h' → fetchFailsAt env h f → fetchFailsAt env h' f.
Proof.
  intros F. destruct (docFrame_queries h h' F) as (Hq1 & Hq2 & Hq3).
  destruct f; cbn; by rewrite ?Hq1, ?Hq2, ?Hq3.
Qed.

(** A fetch sequence with a failing fetch stops with an error at its first
    fetch that returns one: the fetches before it have all returned [nil],
    the handler is the one they have left, and the fetch that stops the
    sequence has not changed it. *)
Lemma fetches_abort (env : Env) (fs : list fetch) (h : Handler)
    (tr : list string) :
  Forall (fetchReady h) fs →
  (∃ f, f ∈ fs ∧ fetchFailsAt env h f) →
  ∃ e h' tr' done f rest trd,
    fs = done ++ f :: rest
    ∧ forM_ done (runFetch env) h tr = (Ok tt, h', trd)
    ∧ runFetch env f h' trd = (Err e, h', tr')
    ∧ forM_ fs (runFetch env) h tr = (Err e, h', tr')
    ∧ docFrame h h'.
Proof.
  revert h tr. induction fs as [|f0 fs IH]; intros h tr Hready Hfail.
  { destruct Hfail as (f & Hin & _). by apply elem_of_nil in Hin. }
  apply Forall_cons in Hready as [Hready0 Hready].
  destruct (runFetch_step env f0 h tr Hready0) as (r & h1 & tr1 & R & F & O & E).
  destruct O as [->|[[e ->] ->]].
  - destruct (IH h1 tr1) as (e & h' & tr' & done & f & rest & trd
                              & -> & Rdone & Rf & Rall & F').
    { eapply Forall_impl; [exact Hready|]. intros f. by apply fetchReady_frame. }
    { destruct Hfail as (f & [->|Hin]%elem_of_cons & Hf).
      - by destruct (E Hf).
      - exists f. split; [done|]. by apply (fetchFailsAt_frame env h h1). }
    exists e, h', tr', (f0 :: done), f, rest, trd.
    split; [done|]. cbn [forM_].
    rewrite !(M_bind_ok _ _ _ _ _ _ _ R).
    split; [done|]. split; [done|]. split; [done|]. by eapply docFrame_trans.
  - exists e, h, tr1, [], f0, fs, tr.
    split; [done|]. split; [done|]. split; [done|].
    split; [|apply docFrame_refl].
    cbn [forM_]. by rewrite (M_bind_err _ _ _ _ _ _ _ R).
Qed.

(** *** What the fetches before the failing one have stored *)

Lemma fetched_unique {A} (decode : string → option A) (resp : httpResult)
    (doc1 doc2 : A) :
  fetched decode resp doc1 → fetched decode resp doc2 → doc1 = doc2.
Proof. intros (b1 & -> & H1) (b2 & [= <-] & H2). congruence. Qed.

(** The handler a fetch that returned [nil] has left: the one it found when
    nothing was fetched and decoded, and otherwise that one with the
    document stored. *)
Lemma runFetch_ok_shape (env : Env) (f : fetch) (h h1 : Handler)
    (tr tr1 : list string) :
  fetchReady h f →
  runFetch env f h tr = (Ok tt, h1, tr1) →
  match f with
  | FChain chain =>
      ((∀ doc, ¬ fetched (unmarshalChain env) (httpGet env (chainQuery h chain)) doc)
       ∧ h1 = h)
      ∨ ∃ doc, fetched (unmarshalChain env) (httpGet env (chainQuery h chain)) doc
          ∧ h1 = set_chainById (<[ChainID doc := chain]> (chainById h))
                   (set_chainList (<[chain := doc]> (chainList h)) h)
  | FAssets chain =>
      ((∀ doc, ¬ fetched (unmarshalAssetList env)
                   (httpGet env (assetListQuery h chain)) doc)
       ∧ h1 = h)
      ∨ ∃ doc, fetched (unmarshalAssetList env)
                 (httpGet env (assetListQuery h chain)) doc
          ∧ h1 = set_assetList (<[chain := doc]> (assetList h)) h
  | FPath path =>
      ((∀ doc, ¬ fetched (unmarshalPath env) (httpGet env (pathQueryOf h path)) doc)
       ∧ h1 = h)
      ∨ ∃ doc tags',
          fetched (unmarshalPath env) (httpGet env (pathQueryOf h path)) doc
          ∧ h1 = set_pathsByTag tags'
                   (set_pathList (<[pathNameOf path := doc]> (pathList h)) h)
          ∧ ∀ t v, bucket tags' t v
                   = bucket (pathsByTag h) t v
                     ++ replicate
                          (countChannels (λ c, bool_decide (tagValue t c = Some v))
                             (Channels doc))
                          doc
  end.
Proof.
  destruct f as [chain|chain|path]; cbn [runFetch fetchReady].
  - intros _. unfold getChain. run_fetch.
    destruct (httpGet env (chainQuery h chain)) as [|code bodyBytes rd]; cbn;
      [done|].
    destruct (decide (code = StatusNotFound)) as [->|Hnf].
    { intros [= <- _]. left. split; [|done]. by intros doc (b & [=] & _). }
    destruct (decide (code ≠ StatusOK)) as [Hok|Hok]; [done|].
    apply dec_stable in Hok as ->. destruct rd; cbn; [|done].
    destruct (unmarshalChain env bodyBytes) as [doc|] eqn:Hjson; [|done].
    intros [= <- _]. right. exists doc. split; [by exists bodyBytes|done].
  - intros _. unfold getAssetList. run_fetch.
    destruct (httpGet env (assetListQuery h chain)) as [|code bodyBytes rd]; cbn;
      [done|].
    destruct (decide (code = StatusNotFound)) as [->|Hnf].
    { intros [= <- _]. left. split; [|done]. by intros doc (b & [=] & _). }
    destruct (decide (code ≠ StatusOK)) as [Hok|Hok]; [done|].
    apply dec_stable in Hok as ->. destruct rd; cbn; [|done].
    destruct (unmarshalAssetList env bodyBytes) as [doc|] eqn:Hjson; [|done].
    intros [= <- _]. right. exists doc. split; [by exists bodyBytes|done].
  - intros [Hready Hsplit].
    destruct (index_Split_pathChains path Hsplit) as [H0 H1].
    unfold pullPath, lift. cbv [mbind M_mbind M_bind]. rewrite H0, H1.
    unfold getPath. run_fetch. unfold pathQueryOf, pathNameOf.
    set (name := getPathName (pathChains path).1 (pathChains path).2).
    destruct (httpGet env (pathQuery h name)) as [|code bodyBytes rd]; cbn;
      [done|].
    destruct (decide (code = StatusNotFound)) as [->|Hnf].
    { intros [= <- _]. left. split; [|done]. by intros doc (b & [=] & _). }
    destruct (decide (code ≠ StatusOK)) as [Hok|Hok]; [done|].
    apply dec_stable in Hok as ->. destruct rd; cbn; [|done].
    destruct (unmarshalPath env bodyBytes) as [doc|] eqn:Hjson; [|done].
    destruct (tagChannels_ok doc (Channels doc)
                (set_pathList (<[name := doc]> (pathList h)) h)
                (tr ++ [pathQuery h name]) Hready) as (tags' & Hch & _ & Hb).
    rewrite Hch. intros [= <- _]. right. exists doc, tags'.
    split; [by exists bodyBytes|]. split; [done|]. exact Hb.
Qed.

Lemma replicate_qualifying (t v : string) (channel : Channel)
    (channels : list Channel) (doc : Path) :
  channel ∈ channels →
  tagValue t channel = Some v →
  doc ∈ replicate
          (countChannels (λ c, bool_decide (tagValue t c = Some v)) channels) doc.
Proof.
  intros Hin Hq. unfold countChannels.
  assert (Hf : channel ∈ filter
                 (λ c, bool_decide (tagValue t c = Some v) = true) channels).
  { apply list_elem_of_filter. split; [by apply bool_decide_eq_true|done]. }
  destruct (filter _ channels) as [|c l]; [by apply elem_of_nil in Hf|].
  cbn. by left.
Qed.

(** A fetch that returned [nil] has stored its document. *)
Lemma runFetch_stores (env : Env) (f : fetch) (h h1 : Handler)
    (tr tr1 : list string) :
  fetchReady h f →
  runFetch env f h tr = (Ok tt, h1, tr1) →
  storedBy env h f h1.
Proof.
  intros Hready Hrun.
  pose proof (runFetch_ok_shape env f h h1 tr tr1 Hready Hrun) as Hshape.
  destruct f as [chain|chain|path]; cbn [storedBy]; intros doc Hdoc.
  - destruct Hshape as [[Hnone _]|(doc' & Hdoc' & ->)]; [by destruct (Hnone doc)|].
    rewrite (fetched_unique _ _ _ _ Hdoc Hdoc'). cbn.
    rewrite !lookup_insert_eq. split; [done|by eexists].
  - destruct Hshape as [[Hnone _]|(doc' & Hdoc' & ->)]; [by destruct (Hnone doc)|].
    rewrite (fetched_unique _ _ _ _ Hdoc Hdoc'). cbn.
    by rewrite lookup_insert_eq.
  - destruct Hshape as [[Hnone _]|(doc' & tags' & Hdoc' & -> & Hb)];
      [by destruct (Hnone doc)|].
    rewrite (fetched_unique _ _ _ _ Hdoc Hdoc'). cbn.
    rewrite lookup_insert_eq. split; [done|].
    intros t v channel Hin Hq. rewrite Hb. apply elem_of_app. right.
    by apply (replicate_qualifying t v channel).
Qed.

(** What one fetch has stored survives every later fetch that returns
    [nil]: a later fetch writes other keys, or the same key with the same
    document, and only extends the tag buckets. *)
Lemma stored_persists (env : Env) (f g : fetch) (h0 h h1 : Handler)
    (tr tr1 : list string) :
  docFrame h0 h →
  fetchReady h f →
  runFetch env f h tr = (Ok tt, h1, tr1) →
  storedBy env h0 g h →
  storedBy env h0 g h1.
Proof.
  intros F Hready Hrun Hg.
  destruct (docFrame_queries h0 h F) as (Hq1 & Hq2 & Hq3).
  pose proof (runFetch_ok_shape env f h h1 tr tr1 Hready Hrun) as Hshape.
  destruct f as [c'|c'|p'].
  - destruct Hshape as [[_ ->]|(doc' & Hdoc' & ->)]; [done|].
    rewrite Hq1 in Hdoc'.
    destruct g as [c|c|p]; cbn [storedBy] in *; [|done..].
    intros doc Hdoc. destruct (Hg doc Hdoc) as [Hlist [name Hid]]. cbn.
    split.
    + destruct (decide (c = c')) as [->|Hne].
      * rewrite lookup_insert_eq. f_equal.
        by apply (fetched_unique _ _ _ _ Hdoc' Hdoc).
      * by rewrite lookup_insert_ne.
    + destruct (decide (ChainID doc = ChainID doc')) as [->|Hne].
      * rewrite lookup_insert_eq. by eexists.
      * rewrite lookup_insert_ne by done. by eexists.
  - destruct Hshape as [[_ ->]|(doc' & Hdoc' & ->)]; [done|].
    rewrite Hq2 in Hdoc'.
    destruct g as [c|c|p]; cbn [storedBy] in *; [done| |done].
    intros doc Hdoc. specialize (Hg doc Hdoc). cbn.
    destruct (decide (c = c')) as [->|Hne].
    + rewrite lookup_insert_eq. f_equal.
      by apply (fetched_unique _ _ _ _ Hdoc' Hdoc).
    + by rewrite lookup_insert_ne.
  - destruct Hshape as [[_ ->]|(doc' & tags' & Hdoc' & -> & Hb)]; [done|].
    rewrite Hq3 in Hdoc'.
    destruct g as [c|c|p]; cbn [storedBy] in *; [done..|].
    intros doc Hdoc. destruct (Hg doc Hdoc) as [Hlist Hbuckets]. cbn.
    split.
    + destruct (decide (pathNameOf p = pathNameOf p')) as [Heq|Hne].
      * rewrite Heq, lookup_insert_eq. f_equal.
        apply (fetched_unique _ _ _ _ Hdoc'). unfold pathQueryOf in *.
        unfold pathNameOf in Heq. by rewrite <-Heq.
      * by rewrite lookup_insert_ne.
    + intros t v channel Hin Hqual. rewrite Hb. apply elem_of_app. left.
      by apply (Hbuckets t v channel).
Qed.

(** After a run of fetches that have all returned [nil], the handler holds
    what each of them has stored. *)
Lemma fetches_stored (env : Env) (done : list fetch) (h h' : Handler)
    (tr tr' : list string) :
  Forall (fetchReady h) done →
  forM_ done (runFetch env) h tr = (Ok tt, h', tr') →
  ∀ g, g ∈ done → storedBy env h g h'.
Proof.
  enough (Hgen : ∀ (h0 h1 h2 : Handler) (tr1 tr2 : list string),
            docFrame h0 h1 →
            Forall (fetchReady h1) done →
            forM_ done (runFetch env) h1 tr1 = (Ok tt, h2, tr2) →
            (∀ g, g ∈ done → storedBy env h0 g h2)
            ∧ ∀ g, storedBy env h0 g h1 → storedBy env h0 g h2).
  { intros Hready Hrun. by apply (Hgen h h h' tr tr' (docFrame_refl h)). }
  clear h h' tr tr'.
  induction done as [|f done IH]; intros h0 h h' tr tr' F Hready Hrun.
  { injection Hrun as <- _. split; [|done].
    intros g Hin. by apply elem_of_nil in Hin. }
  apply Forall_cons in Hready as [Hf Hready].
  destruct (runFetch_step env f h tr Hf) as (r & h1 & tr1 & R & F1 & O & _).
  cbn [forM_] in Hrun.
  destruct O as [->|[[e ->] _]].
  2:{ rewrite (M_bind_err _ _ _ _ _ _ _ R) in Hrun. discriminate Hrun. }
  rewrite (M_bind_ok _ _ _ _ _ _ _ R) in Hrun.
  destruct (IH h0 h1 h' tr1 tr') as [IHin IHkeep].
  { by eapply docFrame_trans. }
  { eapply Forall_impl; [exact Hready|]. intros g. by apply fetchReady_frame. }
  { exact Hrun. }
  assert (Hstep : ∀ g, storedBy env h0 g h → storedBy env h0 g h1).
  { intros g. by apply (stored_persists env f g h0 h h1 tr tr1). }
  split.
  - intros g [->|Hin]%elem_of_cons; [|by apply IHin].
    apply IHkeep.
    pose proof (runFetch_stores env f h h1 tr tr1 Hf R) as Hst.
    destruct (docFrame_queries h0 h F) as (Hq1 & Hq2 & Hq3).
    destruct f; cbn [storedBy] in *; intros doc Hdoc; apply Hst;
      by rewrite ?Hq1, ?Hq2, ?Hq3.
  - intros g Hg. by apply IHkeep, Hstep.
Qed.

Lemma chainFetches_ready (h : Handler) (cs : list string) :
  Forall (fetchReady h) (chainFetches cs).
Proof. induction cs; cbn; repeat constructor; done. Qed.

Lemma elem_of_chainFetches (cs : list string) (chain : string) :
  chain ∈ cs → FChain chain ∈ chainFetches cs ∧ FAssets chain ∈ chainFetches cs.
Proof.
  induction cs as [|c cs IH]; [by intros ?%elem_of_nil|].
  intros [->|Hin]%elem_of_cons; cbn.
  - split; [by left|right; by left].
  - destruct (IH Hin). split; by do 2 right.
Qed.

(** C1 (as the code has it).  In a pass whose commit query and two
    discoveries succeed, if the chain document or the asset list of some
    discovered chain fails, or (on a handler whose tag index holds its four
    inner maps and when every discovered path name splits at ['-']) the
    document of some discovered path fails, then [Pull] returns an error: it
    stops at the first document fetch [f] that returns one.  [lastUpdated]
    and [chainByAsset] are as before the pass, while [chains] and [paths]
    already hold the newly discovered names.  The handler is exactly the one
    the fetches [done] made before [f] have left ([f] itself has not changed
    it): every chain document, asset list and path document they fetched and
    decoded is stored and indexed, and nothing that was there before the
    pass has been taken away. *)
Theorem Pull_document_failure (env : Env) (h : Handler) (tr : list string)
    (b0 b1 b2 : string) (rd : bool) (commits : list json)
    (repo1 repo2 : list (gmap string json)) (cs ps : list string) :
  httpGet env (commitsQuery env h) = Response StatusOK b0 rd →
  unmarshalList env b0 = Some commits →
  commits ≠ [] →
  httpGet env (chainsQuery h) = Response StatusOK b1 true →
  unmarshalRepo env b1 = Some repo1 →
  scanChainEntries repo1 [] = Ok cs →
  httpGet env (pathsQuery h) = Response StatusOK b2 true →
  unmarshalRepo env b2 = Some repo2 →
  scanPathEntries repo2 [] = Ok ps →
  (∃ chain, chain ∈ cs
     ∧ (fetchFails (unmarshalChain env) (httpGet env (chainQuery h chain))
        ∨ fetchFails (unmarshalAssetList env)
            (httpGet env (assetListQuery h chain))))
  ∨ (tagsReady h
     ∧ Forall (λ path, (2 ≤ length (GoStrings.Split path "-"))%nat) ps
     ∧ ∃ path, path ∈ ps
         ∧ fetchFails (unmarshalPath env) (httpGet env (pathQueryOf h path))) →
  ∃ e h' tr' done f rest trd,
    Pull env h tr = (Err e, h', tr')
    ∧ lastUpdated h' = lastUpdated h
    ∧ chainByAsset h' = chainByAsset h
    ∧ registryUrl h' = registryUrl h
    ∧ assets h' = assets h
    ∧ chains h' = cs
    ∧ paths h' = ps
    ∧ fetchesOf cs ps = done ++ f :: rest
    ∧ forM_ done (runFetch env) (set_paths ps (set_chains cs h))
        (tr ++ [commitsQuery env h; chainsQuery h; pathsQuery h])
      = (Ok tt, h', trd)
    ∧ runFetch env f h' trd = (Err e, h', tr')
    ∧ (∀ g, g ∈ done → storedBy env h g h')
    ∧ grows h h'.
Proof.
  intros Hget0 Hjson0 Hne Hget1 Hjson1 Hscan1 Hget2 Hjson2 Hscan2 Hfail.
  set (h0 := set_paths ps (set_chains cs h)).
  set (tr0 := tr ++ [commitsQuery env h; chainsQuery h; pathsQuery h]).
  set (k := (modify (λ h, set_chainByAsset (indexAssets h) h) ;;
             modify (set_lastUpdated (timeNow env))) : M unit).
  assert (HPull : Pull env h tr
                  = (forM_ (fetchesOf cs ps) (runFetch env) ;; k) h0 tr0).
  { rewrite (Pull_from_discovery env h tr b0 b1 b2 rd commits repo1 repo2 cs ps)
      by done.
    apply (loops_as_fetches env cs k h0). }
  assert (Habort : ∃ e h' tr' done f rest trd,
            fetchesOf cs ps = done ++ f :: rest
            ∧ Forall (fetchReady h0) done
            ∧ forM_ done (runFetch env) h0 tr0 = (Ok tt, h', trd)
            ∧ runFetch env f h' trd = (Err e, h', tr')
            ∧ forM_ (fetchesOf cs ps) (runFetch env) h0 tr0 = (Err e, h', tr')
            ∧ docFrame h0 h').
  { destruct Hfail as [(chain & Hin & Hf)|(Hready & Hsplit & path & Hin & Hf)].
    - destruct (fetches_abort env (chainFetches cs) h0 tr0)
        as (e & h' & tr' & done & f & rest & trd & Hcs & Rd & Rf & Rall & F).
      { apply chainFetches_ready. }
      { destruct (elem_of_chainFetches cs chain Hin) as [Hc Ha].
        destruct Hf as [Hf|Hf]; [by exists (FChain chain)|by exists (FAssets chain)]. }
      exists e, h', tr', done, f, (rest ++ (FPath <$> ps)), trd.
      split; [unfold fetchesOf; by rewrite Hcs, <-app_assoc|].
      split.
      { pose proof (chainFetches_ready h0 cs) as Hall. rewrite Hcs in Hall.
        by apply Forall_app in Hall as [? _]. }
      split; [done|]. split; [done|]. split; [|done].
      unfold fetchesOf. rewrite forM_app.
      by rewrite (M_bind_err _ _ _ _ _ _ _ Rall).
    - assert (Hall : Forall (fetchReady h0) (fetchesOf cs ps)).
      { apply Forall_app. split; [apply chainFetches_ready|].
        apply Forall_fmap. eapply Forall_impl; [exact Hsplit|].
        intros p Hp. by split. }
      destruct (fetches_abort env (fetchesOf cs ps) h0 tr0 Hall)
        as (e & h' & tr' & done & f & rest & trd & Hcs & Rd & Rf & Rall & F).
      { exists (FPath path). split; [|done].
        apply elem_of_app. right. by apply list_elem_of_fmap_2. }
      exists e, h', tr', done, f, rest, trd. split; [done|].
      split; [|done]. rewrite Hcs in Hall. by apply Forall_app in Hall as [? _]. }
  destruct Habort as (e & h' & tr' & done & f & rest & trd
                      & Hcs & Hready & Rd & Rf & Rall & F).
  assert (HP : Pull env h tr = (Err e, h', tr')).
  { rewrite HPull. by rewrite (M_bind_err _ _ _ _ _ _ _ Rall). }
  exists e, h', tr', done, f, rest, trd.
  destruct F as (Hurl & Hlast & Hchains & Hassets & Hpaths & Hasset & _).
  repeat (split; [done|]).
  split; [exact (fetches_stored env done h0 h' tr0 trd Hready Rd)|].
  pose proof (Pull_grows env h tr) as Hgrows. by rewrite HP in Hgrows.
Qed.

Lemma Pull_document_failure_witness :
  ∃ e h' tr' done f rest trd,
    Pull Scenario.env (NewHandler Scenario.registry) [] = (Err e, h', tr')
    ∧ lastUpdated h' = 0
    ∧ chainByAsset h' = ∅
    ∧ registryUrl h' = Scenario.registry
    ∧ assets h' = []
    ∧ chains h' = ["atom"; "osmo"]
    ∧ paths h' = ["atom-osmo"]
    ∧ fetchesOf ["atom"; "osmo"] ["atom-osmo"] = done ++ f :: rest
    ∧ forM_ done (runFetch Scenario.env)
        (set_paths ["atom-osmo"]
           (set_chains ["atom"; "osmo"] (NewHandler Scenario.registry)))
        ([] ++ [commitsQuery Scenario.env (NewHandler Scenario.registry);
                chainsQuery (NewHandler Scenario.registry);
                pathsQuery (NewHandler Scenario.registry)])
      = (Ok tt, h', trd)
    ∧ runFetch Scenario.env f h' trd = (Err e, h', tr')
    ∧ (∀ g, g ∈ done → storedBy Scenario.env (NewHandler Scenario.registry) g h')
    ∧ grows (NewHandler Scenario.registry) h'.
Proof.
  apply (Pull_document_failure Scenario.env (NewHandler Scenario.registry) []
           "commits" "root" "ibc" true [JNull]
           Scenario.rootListing Scenario.ibcListing);
    try reflexivity; try discriminate.
  left. exists "osmo". split.
  - apply list_elem_of_In. right. left. reflexivity.
  - left. cbn. split; [discriminate|]. left. discriminate.
Defined.
(** The second case of the hypothesis: a path document that does not
    decode. *)
Lemma Pull_path_document_failure_example :
  ∃ h' tr',
    Pull Scenario.brokenPathEnv (NewHandler Scenario.registry) []
    = (Err ErrUnmarshal, h', tr')
    ∧ lastUpdated h' = 0
    ∧ chains h' = ["atom"; "osmo"]
    ∧ paths h' = ["atom-osmo"]
    ∧ pathList h' = ∅.
Proof. eexists _, _. split; [vm_compute; reflexivity|]. by vm_compute. Qed.

(** C1 as stated fails.  In the scenario the chain document of [osmo] is
    answered with status 500; the pass returns an error, but the handler is
    not the one the pass started from: the chain name list and the path name
    list have been replaced, and the chain document of [atom], fetched before
    the failure, is stored and indexed by its identifier. *)
Lemma Pull_failure_changes_handler :
  let h := NewHandler Scenario.registry in
  fetchFails (unmarshalChain Scenario.env)
    (httpGet Scenario.env (chainQuery h "osmo"))
  ∧ ∃ e h' tr',
      Pull Scenario.env h [] = (Err e, h', tr')
      ∧ h' ≠ h
      ∧ chains h = [] ∧ chains h' = ["atom"; "osmo"]
      ∧ paths h = [] ∧ paths h' = ["atom-osmo"]
      ∧ chainList h !! "atom" = None
      ∧ chainList h' !! "atom" = Some Scenario.atomChain
      ∧ chainById h !! "cosmoshub-4" = None
      ∧ chainById h' !! "cosmoshub-4" = Some "atom".
Proof.
  cbv zeta. split.
  - cbn. split; [discriminate|]. left. discriminate.
  - eexists _, _, _. split; [vm_compute; reflexivity|].
    split; [|by vm_compute].
    intros Heq. apply (f_equal chains) in Heq. vm_compute in Heq.
    discriminate Heq.
Qed.
